(** * infonotes: decoding a sparse list of (character, x, y) triples into a grid

    Shallow embedding of the two decoders of the repository:

    - [PlainText]: [decodeSecretMessage] of [infornotes-modern-functional.js]
      (its inner [parseCharacters], the bounds [reduce], the grid and the
      printing loop);
    - [RowText]: [extractDataFromRows], [buildAndRenderGrid] and their
      composition in [renderFromUrl] (the file holds a class based and a
      class free variant; their cores are the same statement for statement).

    Conventions of the embedding.

    - A JavaScript string is the list of its UTF-16 code units ([jsstring]).
    - Coordinates are mathematical integers ([Z]).  [parseInt(s, 10)] of a
      digit run is its exact decimal value, which is what the code computes
      as long as the value is below 2^53; beyond, the double is rounded, and
      past the largest double it is [Infinity], which the plain-text decoder
      does not guard against (its grid then has no row and the first write
      throws).  The exact value says nothing there.  So what is stated of the
      plain-text decoder on a text is stated for records that are
      [feasible]: coordinates from 0 to below 2^32 - 1, the largest length of
      an array, where the digit runs parse exactly and the grid is one the
      language can build.  The row-text extraction tests [Number.isFinite],
      here on the exact value.  [-Infinity], the value of [Math.max()]
      without arguments, is [None].
    - [console.log] is modelled by the list of the lines written, a [throw]
      by the [Err] result.  Fetching and the DOM are the callers' business:
      the plain-text decoder starts from the text fetched, the row-text one
      from the [textContent] of each row. *)

From Stdlib Require Import ZArith NArith String Ascii Bool Lia DecimalString.
From stdpp Require Import base list.

#[local] Open Scope Z_scope.

(** ** Strings *)

Definition code_unit := N.
Abbreviation jsstring := (list code_unit).

(** A literal of the source, as code units. *)
Definition lit (s : string) : jsstring :=
  map N_of_ascii (list_ascii_of_string s).

(** ECMAScript [LineTerminator]: LF, CR, LS, PS. *)
Definition isLineTerminator (c : code_unit) : bool :=
  ((c =? 10) || (c =? 13) || (c =? 0x2028) || (c =? 0x2029))%N.

(** ECMAScript [WhiteSpace]: TAB, VT, FF, ZWNBSP and the space separators. *)
Definition isWhiteSpace (c : code_unit) : bool :=
  ((c =? 9) || (c =? 11) || (c =? 12) || (c =? 32) || (c =? 160)
   || (c =? 0x1680) || ((0x2000 <=? c) && (c <=? 0x200A))
   || (c =? 0x202F) || (c =? 0x205F) || (c =? 0x3000) || (c =? 0xFEFF))%N.

(** The class [\s], also what [String.prototype.trim] strips. *)
Definition isSpace (c : code_unit) : bool :=
  isWhiteSpace c || isLineTerminator c.

(** The class [\d]. *)
Definition isDigit (c : code_unit) : bool :=
  ((48 <=? c) && (c <=? 57))%N.

Fixpoint dropWhile (p : code_unit -> bool) (s : jsstring) : jsstring :=
  match s with
  | [] => []
  | c :: s' => if p c then dropWhile p s' else s
  end.

(** [s.trim()] *)
Definition trim (s : jsstring) : jsstring :=
  reverse (dropWhile isSpace (reverse (dropWhile isSpace s))).

(** [s.split(sep)] for a separator of one code unit; the empty string
    splits into one empty piece. *)
Fixpoint split (sep : code_unit) (s : jsstring) : list jsstring :=
  match s with
  | [] => [[]]
  | c :: s' =>
      if (c =? sep)%N then [] :: split sep s'
      else match split sep s' with
           | cur :: rest => (c :: cur) :: rest
           | [] => [[c]]
           end
  end.

(** [cells.join(sep)] on an array of strings. *)
Fixpoint join (sep : jsstring) (cells : list jsstring) : jsstring :=
  match cells with
  | [] => []
  | [c] => c
  | c :: rest => c ++ sep ++ join sep rest
  end.

(** [Boolean(s)] for a string: the empty string is falsy. *)
Definition truthy (s : jsstring) : bool :=
  match s with [] => false | _ => true end.

(** [parseInt(s, 10)] on a run of decimal digits: the decimal value of the
    run.  The code has this value when it is below 2^53 (doubles are exact
    there); a longer run is rounded by the code, or is [Infinity]. *)
Definition digitValue (c : code_unit) : Z := Z.of_N c - 48.

Definition parseInt10 (s : jsstring) : Z :=
  fold_left (fun acc c => 10 * acc + digitValue c) s 0.

(** [Number.isFinite(n)] for [n] parsed from a digit run: doubles round to
    [Infinity] from [2^1024 - 2^970] on. *)
Definition Number_isFinite (n : Z) : bool :=
  Z.abs n <? 2 ^ 1024 - 2 ^ 970.

(** [String(n)] for an integer. *)
Definition Number_toString (n : Z) : jsstring :=
  lit (NilZero.string_of_int (Z.to_int n)).

(** ** Errors *)

Inductive error :=
| Error (message : jsstring)
| TypeError (message : jsstring)
| DataError (message : jsstring).

Definition message (e : error) : jsstring :=
  match e with Error m | TypeError m | DataError m => m end.

Inductive result (A : Type) :=
| Ok (a : A)
| Err (e : error).
Arguments Ok {A} a.
Arguments Err {A} e.

Definition bind {A B} (r : result A) (k : A -> result B) : result B :=
  match r with
  | Ok a => k a
  | Err e => Err e
  end.

Notation "'let*' x ':=' r 'in' k" := (bind r (fun x => k))
  (at level 10, x pattern, r at level 100, k at level 200).

(** ** Arrays *)

(** [a[i]] reads an element; an index outside the array gives [undefined]. *)
Definition array_get {A} (a : list A) (i : Z) : option A :=
  if i <? 0 then None else a !! Z.to_nat i.

(** [a[i] = v] on an array of strings.  Inside the array the element is
    replaced; past its end the array grows, and the holes in between read as
    the empty string in [join]; a negative index creates a property that is
    no element. *)
Definition array_set (a : list jsstring) (i : Z) (v : jsstring) : list jsstring :=
  if i <? 0 then a
  else if i <? Z.of_nat (length a) then <[Z.to_nat i := v]> a
  else a ++ replicate (Z.to_nat i - length a) [] ++ [v].

(** A grid: rows of cells, each cell a string. *)
Abbreviation grid := (list (list jsstring)).

Definition space : jsstring := lit " ".

(** [Array.from({ length: h }, () => Array.from({ length: w }, () => ' '))] *)
Definition blankGrid (h w : Z) : grid :=
  replicate (Z.to_nat h) (replicate (Z.to_nat w) space).

(** ** Regular expressions

    The fragment the source uses: a sequence of items, each a class of one
    code unit under a greedy quantifier, captured or not.  [exec] is the
    backtracking matcher at a fixed start, [js_match] is
    [String.prototype.match] for a regex without the [g] flag: the leftmost
    start that matches, and there the first match in backtracking order. *)

Inductive cls :=
| Dot                 (* .  *)
| WS                  (* \s *)
| NonWS               (* \S *)
| Digit               (* \d *)
| Chr (c : code_unit).

Inductive quant := Once | Many0 | Many1.

Record item := Item { it_cls : cls; it_quant : quant; it_capture : bool }.

Definition regex := list item.

Definition cls_test (k : cls) (c : code_unit) : bool :=
  match k with
  | Dot => negb (isLineTerminator c)
  | WS => isSpace c
  | NonWS => negb (isSpace c)
  | Digit => isDigit c
  | Chr d => (c =? d)%N
  end.

(** Number of leading code units of [s] in the class. *)
Fixpoint span (p : code_unit -> bool) (s : jsstring) : nat :=
  match s with
  | c :: s' => if p c then S (span p s') else O
  | [] => O
  end.

(** Greedy choice: the first of [f n], [f (n-1)], ..., [f lo] that succeeds. *)
Fixpoint greedy {A} (f : nat -> option A) (lo n : nat) : option A :=
  if (n <? lo)%nat then None
  else match f n with
       | Some r => Some r
       | None => match n with
                 | O => None
                 | S n' => greedy f lo n'
                 end
       end.

Fixpoint exec (r : regex) (s : jsstring) : option (list jsstring) :=
  match r with
  | [] => Some []
  | it :: r' =>
      let avail := span (cls_test (it_cls it)) s in
      let hi := match it_quant it with Once => Nat.min 1 avail | _ => avail end in
      let lo := match it_quant it with Many0 => O | _ => 1%nat end in
      greedy (fun n =>
                match exec r' (drop n s) with
                | Some caps => Some (if it_capture it then take n s :: caps else caps)
                | None => None
                end) lo hi
  end.

Fixpoint js_match (r : regex) (s : jsstring) : option (list jsstring) :=
  match exec r s with
  | Some caps => Some caps
  | None => match s with
            | [] => None
            | _ :: s' => js_match r s'
            end
  end.

(** ** The plain-text decoder *)

Module PlainText.

Record character := { char : jsstring; x : Z; y : Z }.

Definition cap (k : cls) (q : quant) : item := Item k q true.
Definition skip (k : cls) (q : quant) : item := Item k q false.

(** [/(.)\s+(\d+)\s+(\d+)/], [/(.),\s*(\d+),\s*(\d+)/],
    [/(\S+)\s+(\d+)\s+(\d+)/] *)
Definition patterns : list regex :=
  [ [cap Dot Once; skip WS Many1; cap Digit Many1; skip WS Many1; cap Digit Many1];
    [cap Dot Once; skip (Chr 44%N) Once; skip WS Many0; cap Digit Many1;
     skip (Chr 44%N) Once; skip WS Many0; cap Digit Many1];
    [cap NonWS Many1; skip WS Many1; cap Digit Many1; skip WS Many1; cap Digit Many1] ].

(** The body of the second [map]: the first pattern that matches gives the
    record, no pattern gives [null]. *)
Fixpoint parseLine (ps : list regex) (line : jsstring) : option character :=
  match ps with
  | [] => None
  | p :: ps' =>
      match js_match p line with
      | Some [c; xs; ys] =>
          Some {| char := c; x := parseInt10 xs; y := parseInt10 ys |}
      | Some _ => None  (* no pattern of the source has other than three groups *)
      | None => parseLine ps' line
      end
  end.

Definition parseCharacters (content : jsstring) : list character :=
  omap (parseLine patterns)
       (filter (fun l => truthy l = true) (map trim (split 10%N content))).

Record Bounds := { minX : Z; maxX : Z; minY : Z; maxY : Z }.

(** The reducer.  The initial accumulator
    [{ minX: Infinity, maxX: -Infinity, minY: Infinity, maxY: -Infinity }]
    is [None]: [Math.min(Infinity, v)] and [Math.max(-Infinity, v)] are [v]. *)
Definition extend (acc : option Bounds) (c : character) : option Bounds :=
  match acc with
  | None => Some {| minX := x c; maxX := x c; minY := y c; maxY := y c |}
  | Some b => Some {| minX := Z.min (minX b) (x c); maxX := Z.max (maxX b) (x c);
                      minY := Z.min (minY b) (y c); maxY := Z.max (maxY b) (y c) |}
  end.

Definition computeBounds (characters : list character) : option Bounds :=
  fold_left extend characters None.

(** [grid[y - bounds.minY][x - bounds.minX] = char]; writing through a row
    that does not exist throws. *)
Definition write (b : Bounds) (g : grid) (c : character) : result grid :=
  match array_get g (y c - minY b) with
  | None => Err (TypeError (lit "Cannot set properties of undefined"))
  | Some row =>
      Ok (<[Z.to_nat (y c - minY b) := array_set row (x c - minX b) (char c)]> g)
  end.

Fixpoint forEach (b : Bounds) (g : grid) (characters : list character) : result grid :=
  match characters with
  | [] => Ok g
  | c :: rest => let* g' := write b g c in forEach b g' rest
  end.

Definition noData : error := Error (lit "No character data found").

(** The grid as it stands when printing starts. *)
Definition rasterize (characters : list character) : result grid :=
  if (length characters =? 0)%nat then Err noData
  else match computeBounds characters with
       | Some b =>
           forEach b (blankGrid (maxY b - minY b + 1) (maxX b - minX b + 1)) characters
       | None => Ok []  (* the span of the sentinels is -Infinity: no row *)
       end.

(** Everything after the fetch: the lines written by [console.log]. *)
Definition decodeSecretMessage (content : jsstring) : result (list jsstring) :=
  let* g := rasterize (parseCharacters content) in
  Ok (lit "Secret Message:" :: map (join []) g).

End PlainText.

(** ** The row-text decoder *)

Module RowText.

(** An element of the array [Array.from(text.matchAll(re))]: a match
    array, whose element [0] is the text matched. *)
Record RegExpMatch := MatchArray { m0 : jsstring }.

(** The maximal runs of code units in a class, left to right: the matches
    of [/\d+/g] and [/\D+/g]. *)
Fixpoint runs (p : code_unit -> bool) (s : jsstring) : list jsstring :=
  match s with
  | [] => []
  | c :: s' =>
      if p c then
        match s' with
        | c' :: _ =>
            if p c' then
              match runs p s' with
              | r :: rs => (c :: r) :: rs
              | [] => [[c]]
              end
            else [c] :: runs p s'
        | [] => [[c]]
        end
      else runs p s'
  end.

Definition matchAll (p : code_unit -> bool) (text : jsstring) : list RegExpMatch :=
  map MatchArray (runs p text).

Definition isNonDigit (c : code_unit) : bool := negb (isDigit c).

(** [m.trim()] for a match array [m].  [trim] is a method of strings; an
    array has no property of that name, so the call throws. *)
Definition trimError : error := TypeError (lit "m.trim is not a function").

Definition call_trim (m : RegExpMatch) : result jsstring := Err trimError.

(** [a.map(f)] for an [f] that may throw. *)
Fixpoint mapM {A B} (f : A -> result B) (a : list A) : result (list B) :=
  match a with
  | [] => Ok []
  | v :: a' =>
      let* w := f v in
      let* ws := mapM f a' in
      Ok (w :: ws)
  end.

(** The value pushed onto [chars]: the array [nonDigits] or the string [' ']. *)
Inductive charValue :=
| Str (s : jsstring)
| Arr (a : list jsstring).

Definition quoted (text : jsstring) : jsstring :=
  [34%N] ++ text ++ [34%N].

(** The body of the loop of [extractDataFromRows] for a row of that
    [textContent]. *)
Definition extractRow (text : jsstring) : result ((Z * Z) * charValue) :=
  let digits := map m0 (matchAll isDigit text) in
  let* trimmed := mapM call_trim (matchAll isNonDigit text) in
  let nonDigits := filter (fun s => truthy s = true) trimmed in
  match digits with
  | xStr :: yStr :: _ =>
      let x := parseInt10 xStr in
      let y := parseInt10 yStr in
      if negb (Number_isFinite x) || negb (Number_isFinite y) then
        Err (DataError (lit "Invalid numeric coordinates in row: " ++ quoted text))
      else
        let char := if (0 <? length nonDigits)%nat then Arr nonDigits else Str space in
        Ok ((x, y), char)
  | _ =>  (* digits.length < 2 *)
      Err (DataError (lit "Row missing at least two coordinates: " ++ quoted text))
  end.

Fixpoint extractLoop (rows : list jsstring) (coords : list (Z * Z))
    (chars : list charValue) : result (list (Z * Z) * list charValue) :=
  match rows with
  | [] => Ok (coords, chars)
  | text :: rest =>
      let* (xy, char) := extractRow text in
      extractLoop rest (coords ++ [xy]) (chars ++ [char])
  end.

Definition extractDataFromRows (rows : list jsstring)
    : result (list (Z * Z) * list charValue) :=
  extractLoop rows [] [].

(** [Math.max(...xs)] *)
Definition Math_max (xs : list Z) : option Z :=
  fold_left (fun acc v => match acc with
                          | None => Some v
                          | Some m => Some (Z.max m v)
                          end) xs None.

(** [String(ch)]: a string is itself, an array is its elements joined by
    commas. *)
Definition String_ (ch : charValue) : jsstring :=
  match ch with
  | Str s => s
  | Arr a => join (lit ",") a
  end.

(** What the loop stores for [ch]:
    [printable.length > 0 ? printable : ' ']. *)
Definition printable (ch : charValue) : jsstring :=
  if (0 <? length (String_ ch))%nat then String_ ch else space.

(** The test that guards the [continue]. *)
Definition outOfBounds (g : grid) (xy : Z * Z) : bool :=
  (fst xy <? 0) || (snd xy <? 0) || (Z.of_nat (length g) <=? snd xy)
  || (Z.of_nat (length (hd [] g)) <=? fst xy).

(** One turn of the placing loop. *)
Definition place (g : grid) (xy : Z * Z) (ch : charValue) : grid :=
  if outOfBounds g xy then g
  else match g !! Z.to_nat (snd xy) with
       | Some row => <[Z.to_nat (snd xy) := array_set row (fst xy) (printable ch)]> g
       | None => g  (* not reached: the row index is below [grid.length] *)
       end.

(** The placing loop; [coords] and [chars] have the same length there. *)
Fixpoint placeAll (g : grid) (coords : list (Z * Z)) (chars : list charValue) : grid :=
  match coords, chars with
  | xy :: coords', ch :: chars' => placeAll (place g xy ch) coords' chars'
  | _, _ => g
  end.

Definition showNumber (n : option Z) : jsstring :=
  match n with
  | Some z => Number_toString z
  | None => lit "-Infinity"
  end.

(** [maxX] and [maxY] of the source, once they passed the size check. *)
Definition gridSize (coords : list (Z * Z)) : result (Z * Z) :=
  let maxX := (fun m => m + 1) <$> Math_max (map fst coords) in
  let maxY := (fun m => m + 1) <$> Math_max (map snd coords) in
  match maxX, maxY with
  | Some w, Some h =>
      if (w <=? 0) || (h <=? 0) then
        Err (DataError (lit "Invalid grid size computed: " ++ showNumber maxX
                        ++ lit "x" ++ showNumber maxY))
      else Ok (w, h)
  | _, _ =>  (* not an integer *)
      Err (DataError (lit "Invalid grid size computed: " ++ showNumber maxX
                      ++ lit "x" ++ showNumber maxY))
  end.

(** The grid as it stands when printing starts. *)
Definition buildGrid (coords : list (Z * Z)) (chars : list charValue) : result grid :=
  let* (w, h) := gridSize coords in
  Ok (placeAll (blankGrid h w) coords chars).

(** The printing loop, [row] running from [n - 1] down to 0. *)
Fixpoint printRows (g : grid) (n : nat) : list jsstring :=
  match n with
  | O => []
  | S row => join [] (default [] (g !! row)) :: printRows g row
  end.

Definition buildAndRenderGrid (coords : list (Z * Z)) (chars : list charValue)
    : result (list jsstring) :=
  if negb (length coords =? length chars)%nat then
    Err (DataError (lit "Coordinates and characters length mismatch"))
  else if (length coords =? 0)%nat then Ok [ [] ]
  else
    let* g := buildGrid coords chars in
    Ok (printRows g (length g)).

(** [renderFromUrl] from the rows on: [rows] are the [textContent] of the
    rows that [getTableRows] returns. *)
Definition renderFromUrl (rows : list jsstring) : result (list jsstring) :=
  let* (coords, chars) := extractDataFromRows rows in
  buildAndRenderGrid coords chars.

End RowText.

(** ** Vocabulary of the statements *)

(** The cell in row [r], column [c]. *)
Definition cellAt (g : grid) (r c : Z) : option jsstring :=
  match array_get g r with
  | Some row => array_get row c
  | None => None
  end.

(** A grid of [h] rows of [w] cells each. *)
Definition rect (h w : Z) (g : grid) : Prop :=
  Z.of_nat (length g) = h /\ Forall (fun row => Z.of_nat (length row) = w) g.

(** [m] is the largest, respectively the smallest, of [vs]. *)
Definition greatest (m : Z) (vs : list Z) : Prop :=
  In m vs /\ Forall (fun v => v <= m) vs.

Definition least (m : Z) (vs : list Z) : Prop :=
  In m vs /\ Forall (fun v => m <= v) vs.

(** [s.includes(t)] *)
Fixpoint isPrefix (t s : jsstring) : bool :=
  match t, s with
  | [], _ => true
  | a :: t', b :: s' => (a =? b)%N && isPrefix t' s'
  | _ :: _, [] => false
  end.

Fixpoint includes (s t : jsstring) : bool :=
  isPrefix t s || match s with
                  | [] => false
                  | _ :: s' => includes s' t
                  end.

Definition newline : code_unit := 10%N.

(** A string without a newline. *)
Definition oneLine (l : jsstring) : Prop := Forall (fun c => c <> newline) l.

(** The records of a sequence of lines: each line trimmed, the blank ones
    left out, the others parsed. *)
Definition recordsOfLines (ls : list jsstring) : list PlainText.character :=
  omap (PlainText.parseLine PlainText.patterns)
       (filter (fun l => truthy l = true) (map trim ls)).

(** The largest length of an array. *)
Definition maxArrayLength : Z := 2 ^ 32 - 1.

(** A record of the data model whose grid the language can build: both
    coordinates from 0 to below the largest length of an array.  The digit
    runs of such coordinates parse exactly. *)
Definition feasible (c : PlainText.character) : Prop :=
  0 <= PlainText.x c < maxArrayLength /\ 0 <= PlainText.y c < maxArrayLength.

(** The record [c] lies within the bounds [b]. *)
Definition within (b : PlainText.Bounds) (c : PlainText.character) : Prop :=
  PlainText.minX b <= PlainText.x c <= PlainText.maxX b
  /\ PlainText.minY b <= PlainText.y c <= PlainText.maxY b.

(** The last character of the list aimed at [(x, y)]. *)
Fixpoint lastCharacterAt (px py : Z) (cs : list PlainText.character)
    : option PlainText.character :=
  match cs with
  | [] => None
  | c :: rest =>
      match lastCharacterAt px py rest with
      | Some c' => Some c'
      | None =>
          if (PlainText.x c =? px) && (PlainText.y c =? py) then Some c else None
      end
  end.

(** The last entry of [chars] whose coordinates are [(x, y)]. *)
Fixpoint lastCharAt (px py : Z) (coords : list (Z * Z)) (chars : list RowText.charValue)
    : option RowText.charValue :=
  match coords, chars with
  | xy :: coords', ch :: chars' =>
      match lastCharAt px py coords' chars' with
      | Some ch' => Some ch'
      | None => if (fst xy =? px) && (snd xy =? py) then Some ch else None
      end
  | _, _ => None
  end.

(** The coordinates for which the placing loop takes its [continue], in the
    order of the turns. *)
Fixpoint skipped (g : grid) (coords : list (Z * Z)) (chars : list RowText.charValue)
    : list (Z * Z) :=
  match coords, chars with
  | xy :: coords', ch :: chars' =>
      (if RowText.outOfBounds g xy then [xy] else [])
      ++ skipped (RowText.place g xy ch) coords' chars'
  | _, _ => []
  end.

(** The records the loop does not skip on a grid of [h] rows and [w] columns. *)
Definition inside (w h : Z) (xy : Z * Z) : bool :=
  (0 <=? fst xy) && (fst xy <? w) && (0 <=? snd xy) && (snd xy <? h).

Definition keepInside (w h : Z) (recs : list ((Z * Z) * RowText.charValue))
    : list ((Z * Z) * RowText.charValue) :=
  filter (fun r => inside w h (fst r) = true) recs.

(** ** Sample data *)

Definition exampleLines : list jsstring :=
  [lit "A 3 4"; lit "B, 1, 2"; lit "C 0 0"].

Definition exampleCharacters : list PlainText.character :=
  [ {| PlainText.char := lit "A"; PlainText.x := 3; PlainText.y := 4 |};
    {| PlainText.char := lit "B"; PlainText.x := 1; PlainText.y := 2 |};
    {| PlainText.char := lit "Z"; PlainText.x := 3; PlainText.y := 4 |} ].

(** Two records on the cell (1, 1), one left of the grid. *)
Definition exampleCoords : list (Z * Z) := [(0, 0); (1, 1); (-1, 0); (1, 1)].

Definition exampleChars : list RowText.charValue :=
  [ RowText.Arr [lit "X"]; RowText.Arr [lit "Y"]; RowText.Arr [lit "W"];
    RowText.Arr [lit "a"; lit "b"] ].

(** Three records without a negative coordinate. *)
Definition nonnegCoords : list (Z * Z) := [(0, 0); (1, 1); (1, 1)].

Definition nonnegChars : list RowText.charValue :=
  [ RowText.Arr [lit "X"]; RowText.Arr [lit "Y"]; RowText.Arr [lit "a"; lit "b"] ].

(** ** The plain-text decoder before the text is there

    [extractDocId], [getPlainTextUrl], [fetchWithRetry] and the [try] block
    of [decodeSecretMessage] around them.  The network is a parameter: for a
    URL and the number of the call, counted from 1, what [fetch] gives.
    Delays are recorded, not waited for. *)

Module PlainTextFetch.

(** The class [[a-zA-Z0-9-_]]: after the range [0-9] the dash is literal. *)
Definition isDocIdChar (c : code_unit) : bool :=
  (((97 <=? c) && (c <=? 122)) || ((65 <=? c) && (c <=? 90))
   || ((48 <=? c) && (c <=? 57)) || (c =? 45) || (c =? 95))%N.

Definition docMarker : jsstring := lit "/document/d/".

(** [/\/document\/d\/([a-zA-Z0-9-_]+)/] at a fixed start: the marker, then
    the longest run of the class, which is the group; nothing follows the
    group, so the greedy run is never given back. *)
Definition docIdAt (s : jsstring) : option jsstring :=
  if isPrefix docMarker s then
    let rest := drop (length docMarker) s in
    let n := span isDocIdChar rest in
    if (0 <? n)%nat then Some (take n rest) else None
  else None.

(** [url.match(re)]: the leftmost start that matches; the result is the
    group [match[1]]. *)
Fixpoint matchDocId (s : jsstring) : option jsstring :=
  match docIdAt s with
  | Some id => Some id
  | None => match s with
            | [] => None
            | _ :: s' => matchDocId s'
            end
  end.

Definition invalidUrl : error := Error (lit "Invalid Google Doc URL format").

Definition extractDocId (url : jsstring) : result jsstring :=
  match matchDocId url with
  | None => Err invalidUrl
  | Some id => Ok id
  end.

Definition exportUrl (id : jsstring) : jsstring :=
  lit "https://docs.google.com/document/d/" ++ id ++ lit "/export?format=txt".

Definition getPlainTextUrl (url : jsstring) : result jsstring :=
  if includes url docMarker then
    let* id := extractDocId url in
    Ok (exportUrl id)
  else Ok url.

(** What one call of [fetch] gives: a rejection, or a response with its
    [ok], its [status] and what [response.text()] gives. *)
Inductive fetched :=
| Rejected (e : error)
| Response (ok : bool) (status : Z) (text : result jsstring).

(** What the decoder does to the world, in order. *)
Inductive effect :=
| Fetch (url : jsstring)
| Warn (line : jsstring)
| Sleep (ms : Z)
| Log (line : jsstring)
| LogError (line : jsstring).

(** The body of the [try] of the retry loop. *)
Definition attemptOnce (r : fetched) : result jsstring :=
  match r with
  | Rejected e => Err e
  | Response ok status text =>
      if negb ok then Err (Error (lit "HTTP " ++ Number_toString status))
      else text
  end.

(** The loop of [fetchWithRetry] from [attempt] on, with
    [remaining = maxRetries - attempt + 1] turns to go.  When the loop ends
    without a [return] the function gives [undefined], which is [None]. *)
Fixpoint retryLoop (net : nat -> fetched) (url : jsstring) (maxRetries remaining attempt : nat)
    : list effect * result (option jsstring) :=
  match remaining with
  | O => ([], Ok None)
  | S remaining' =>
      match attemptOnce (net attempt) with
      | Ok text => ([Fetch url], Ok (Some text))
      | Err e =>
          if (attempt =? maxRetries)%nat then ([Fetch url], Err e)
          else
            let rest := retryLoop net url maxRetries remaining' (S attempt) in
            (Fetch url
               :: Warn (lit "Attempt " ++ Number_toString (Z.of_nat attempt)
                        ++ lit " failed, retrying...")
               :: Sleep (1000 * Z.of_nat attempt) :: fst rest,
             snd rest)
      end
  end.

Definition fetchWithRetry (net : nat -> fetched) (url : jsstring) (maxRetries : nat)
    : list effect * result (option jsstring) :=
  retryLoop net url maxRetries maxRetries 1.

(** The [catch] of [decodeSecretMessage]: one line on the error console,
    and the error again. *)
Definition failed {A} (effs : list effect) (e : error) : list effect * result A :=
  (effs ++ [LogError (lit "Decoding failed: " ++ message e)], Err e).

(** [decodeSecretMessage(googleDocUrl)] as a whole; [fetchWithRetry] is
    called with its default of 3 retries. *)
Definition decodeSecretMessageFrom (net : jsstring -> nat -> fetched)
    (googleDocUrl : jsstring) : list effect * result unit :=
  match getPlainTextUrl googleDocUrl with
  | Err e => failed [] e
  | Ok url =>
      let run := fetchWithRetry (net url) url 3 in
      match snd run with
      | Err e => failed (fst run) e
      | Ok None =>  (* content.split on undefined *)
          failed (fst run)
            (TypeError (lit "Cannot read properties of undefined (reading 'split')"))
      | Ok (Some content) =>
          match PlainText.decodeSecretMessage content with
          | Err e => failed (fst run) e
          | Ok lines => (fst run ++ map Log lines, Ok tt)
          end
      end
  end.

End PlainTextFetch.

(** ** The rows of the table

    [getTableRows] from the array of the [tr] elements on, each given by its
    [textContent]: [rows.slice(1)]. *)

Definition getTableRows (trs : list jsstring) : list jsstring := drop 1 trs.

(** ** Vocabulary of the further statements *)

(** The grid of [h] rows and [w] columns whose cell in row [r], column [c]
    is [f r c]. *)
Definition tabulate (h w : Z) (f : Z -> Z -> jsstring) : grid :=
  map (fun r => map (fun c => f r c) (seqZ 0 w)) (seqZ 0 h).

(** What the plain-text grid shows at the coordinates [(px, py)]. *)
Definition shownAt (cs : list PlainText.character) (px py : Z) : jsstring :=
  match lastCharacterAt px py cs with
  | Some c => PlainText.char c
  | None => space
  end.

(** What the row-text grid shows at the coordinates [(px, py)]. *)
Definition shownAtRow (coords : list (Z * Z)) (chars : list RowText.charValue)
    (px py : Z) : jsstring :=
  match lastCharAt px py coords chars with
  | Some ch => RowText.printable ch
  | None => space
  end.

(** A record moved by [(dx, dy)]. *)
Definition shift (dx dy : Z) (c : PlainText.character) : PlainText.character :=
  {| PlainText.char := PlainText.char c;
     PlainText.x := PlainText.x c + dx; PlainText.y := PlainText.y c + dy |}.

(** The calls of [fetch] among the effects, by their URL, in order. *)
Definition fetches (effs : list PlainTextFetch.effect) : list jsstring :=
  omap (fun e => match e with PlainTextFetch.Fetch url => Some url | _ => None end) effs.

(** The delays among the effects, in order. *)
Definition delays (effs : list PlainTextFetch.effect) : list Z :=
  omap (fun e => match e with PlainTextFetch.Sleep ms => Some ms | _ => None end) effs.

(** The lines written with [console.log] among the effects, in order. *)
Definition logged (effs : list PlainTextFetch.effect) : list jsstring :=
  omap (fun e => match e with PlainTextFetch.Log line => Some line | _ => None end) effs.

(** The lines written with [console.error] among the effects, in order. *)
Definition loggedErrors (effs : list PlainTextFetch.effect) : list jsstring :=
  omap (fun e => match e with PlainTextFetch.LogError line => Some line | _ => None end) effs.

(** The call of [fetch] number [j] fails: it rejects, the response is not
    [ok], or reading its text rejects. *)
Definition attemptFails (net : nat -> PlainTextFetch.fetched) (j : nat) : Prop :=
  exists e, PlainTextFetch.attemptOnce (net j) = Err e.

(** The records of the plain-text decoder as the two arrays of the row-text
    one, each character as a string. *)
Definition coordsOf (cs : list PlainText.character) : list (Z * Z) :=
  map (fun c => (PlainText.x c, PlainText.y c)) cs.

Definition charsOf (cs : list PlainText.character) : list RowText.charValue :=
  map (fun c => RowText.Str (PlainText.char c)) cs.

(** What a group captures: code units of the class of its item, as many as
    its quantifier allows. *)
Definition captureOf (it : item) (cap : jsstring) : Prop :=
  Forall (fun c => cls_test (it_cls it) c = true) cap
  /\ match it_quant it with
     | Once => length cap = 1%nat
     | Many0 => True
     | Many1 => (1 <= length cap)%nat
     end.

Definition captured (r : list item) : list item :=
  filter (fun it => it_capture it = true) r.

(** ** The worked example of the plain-text decoder *)

(** C1: the lines "A 3 4", "B, 1, 2" and "C 0 0" parse to three records with
    bounds minX=0, maxX=3, minY=0, maxY=4; the grid has 5 rows of 4 columns
    with 'A' at row 4 column 3, 'B' at row 2 column 1, 'C' at row 0 column 0
    and a space in every other cell. *)
Theorem C1_plain_text_example :
  let characters := PlainText.parseCharacters (join [newline] exampleLines) in
  let sp := space in
  characters =
    [ {| PlainText.char := lit "A"; PlainText.x := 3; PlainText.y := 4 |};
      {| PlainText.char := lit "B"; PlainText.x := 1; PlainText.y := 2 |};
      {| PlainText.char := lit "C"; PlainText.x := 0; PlainText.y := 0 |} ]
  /\ PlainText.computeBounds characters =
       Some {| PlainText.minX := 0; PlainText.maxX := 3;
               PlainText.minY := 0; PlainText.maxY := 4 |}
  /\ PlainText.rasterize characters =
       Ok [ [lit "C"; sp; sp; sp];
            [sp; sp; sp; sp];
            [sp; lit "B"; sp; sp];
            [sp; sp; sp; sp];
            [sp; sp; sp; lit "A"] ]
  /\ PlainText.decodeSecretMessage (join [newline] exampleLines) =
       Ok [ lit "Secret Message:"; lit "C   "; lit "    "; lit " B  ";
            lit "    "; lit "   A" ].
Proof. vm_compute. repeat split. Qed.

(** ** Arrays and grids *)

Section Grids.

Implicit Types (g : grid) (row : list jsstring) (v : jsstring).

Lemma array_set_inside row c v :
  0 <= c < Z.of_nat (length row) ->
  array_set row c v = <[Z.to_nat c := v]> row.
Proof.
  intros Hc. unfold array_set.
  destruct (Z.ltb_spec c 0); [lia|].
  destruct (Z.ltb_spec c (Z.of_nat (length row))); [done|lia].
Qed.

Lemma array_get_nat {A} (a : list A) (i : Z) :
  0 <= i -> array_get a i = a !! Z.to_nat i.
Proof. intros Hi. unfold array_get. destruct (Z.ltb_spec i 0); [lia|done]. Qed.

Lemma rect_lookup h w g r row :
  rect h w g -> g !! r = Some row -> Z.of_nat (length row) = w.
Proof. intros [_ Hall] Hrow. exact (proj1 (Forall_lookup _ _) Hall _ _ Hrow). Qed.

Lemma rect_row h w g r :
  rect h w g -> 0 <= r < h -> exists row, g !! Z.to_nat r = Some row.
Proof.
  intros [Hlen _] Hr. apply lookup_lt_is_Some_2. lia.
Qed.

Lemma rect_blank h w : 0 <= h -> 0 <= w -> rect h w (blankGrid h w).
Proof.
  intros Hh Hw. split.
  - unfold blankGrid. rewrite length_replicate. lia.
  - unfold blankGrid. apply Forall_replicate. rewrite length_replicate. lia.
Qed.

Lemma cellAt_blank h w r c :
  0 <= r < h -> 0 <= c < w -> cellAt (blankGrid h w) r c = Some space.
Proof.
  intros Hr Hc. unfold cellAt, blankGrid.
  rewrite array_get_nat by lia.
  rewrite lookup_replicate_2 by lia.
  rewrite array_get_nat by lia.
  rewrite lookup_replicate_2 by lia. done.
Qed.

(** The assignment [grid[r][c] = v] inside the grid keeps its shape... *)
Lemma rect_write h w g r c v row :
  rect h w g -> 0 <= c < w -> g !! Z.to_nat r = Some row ->
  rect h w (<[Z.to_nat r := array_set row c v]> g).
Proof.
  intros Hg Hc Hrow. pose proof (rect_lookup _ _ _ _ _ Hg Hrow) as Hw.
  destruct Hg as [Hlen Hall]. split.
  - rewrite length_insert. done.
  - apply Forall_insert; [done|].
    rewrite array_set_inside by lia. rewrite length_insert. done.
Qed.

(** ... and changes that cell only. *)
Lemma cellAt_write h w g r c v row r' c' :
  rect h w g -> 0 <= r -> 0 <= c < w -> g !! Z.to_nat r = Some row ->
  0 <= r' -> 0 <= c' ->
  cellAt (<[Z.to_nat r := array_set row c v]> g) r' c'
  = if (r' =? r) && (c' =? c) then Some v else cellAt g r' c'.
Proof.
  intros Hg Hr Hc Hrow Hr' Hc'.
  pose proof (rect_lookup _ _ _ _ _ Hg Hrow) as Hw.
  pose proof (lookup_lt_Some _ _ _ Hrow) as Hlt.
  unfold cellAt. rewrite !array_get_nat by lia.
  destruct (Z.eqb_spec r' r) as [->|Hne]; simpl.
  - rewrite list_lookup_insert_eq by done. rewrite Hrow.
    rewrite array_set_inside by lia. rewrite !array_get_nat by lia.
    destruct (Z.eqb_spec c' c) as [->|Hnc].
    + rewrite list_lookup_insert_eq by lia. done.
    + rewrite list_lookup_insert_ne by lia. done.
  - rewrite list_lookup_insert_ne by lia. done.
Qed.

Lemma rect_hd h w g : rect h w g -> 0 < h -> Z.of_nat (length (hd [] g)) = w.
Proof.
  intros [Hlen Hall] Hh. destruct g as [|row g']; simpl in *; [lia|].
  by inversion Hall.
Qed.

End Grids.

(** ** The placing loop of the row-text decoder *)

Section Placing.

Import RowText.

Variables (h w : Z).
Hypothesis (Hh : 0 < h).

Implicit Types (g : grid) (xy : Z * Z) (ch : charValue).

(** On a grid of that shape the guard of the [continue] is the test of the
    four bounds. *)
Lemma outOfBounds_rect g xy :
  rect h w g -> outOfBounds g xy = negb (inside w h xy).
Proof using Hh.
  intros Hg. pose proof (rect_hd _ _ _ Hg Hh) as Hw.
  destruct Hg as [Hlen _]. unfold outOfBounds, inside.
  rewrite Hlen, Hw.
  destruct (Z.ltb_spec (fst xy) 0), (Z.ltb_spec (snd xy) 0),
    (Z.leb_spec h (snd xy)), (Z.leb_spec w (fst xy)),
    (Z.leb_spec 0 (fst xy)), (Z.leb_spec 0 (snd xy)),
    (Z.ltb_spec (fst xy) w), (Z.ltb_spec (snd xy) h); simpl; lia || done.
Qed.

Lemma inside_spec xy :
  inside w h xy = true <-> 0 <= fst xy < w /\ 0 <= snd xy < h.
Proof. unfold inside. rewrite !andb_true_iff. lia. Qed.

Lemma place_outside g xy ch :
  outOfBounds g xy = true -> place g xy ch = g.
Proof. intros Hout. unfold place. by rewrite Hout. Qed.

Lemma place_rect g xy ch : rect h w g -> rect h w (place g xy ch).
Proof using Hh.
  intros Hg. unfold place. rewrite (outOfBounds_rect _ _ Hg).
  destruct (inside w h xy) eqn:Hin; simpl; [|done].
  apply inside_spec in Hin.
  destruct (g !! Z.to_nat (snd xy)) as [row|] eqn:Hrow; [|done].
  apply rect_write; [done|lia|done].
Qed.

Lemma place_cell g xy ch r c :
  rect h w g -> 0 <= r -> 0 <= c ->
  cellAt (place g xy ch) r c
  = if inside w h xy && (r =? snd xy) && (c =? fst xy)
    then Some (printable ch) else cellAt g r c.
Proof using Hh.
  intros Hg Hr Hc. unfold place. rewrite (outOfBounds_rect _ _ Hg).
  destruct (inside w h xy) eqn:Hin; simpl; [|done].
  apply inside_spec in Hin.
  destruct (rect_row _ _ _ (snd xy) Hg) as [row Hrow]; [lia|].
  rewrite Hrow. apply (cellAt_write h w); try done; lia.
Qed.

Lemma placeAll_rect coords chars g :
  rect h w g -> rect h w (placeAll g coords chars).
Proof using Hh.
  revert chars g. induction coords as [|xy coords IH]; intros [|ch chars] g Hg;
    simpl; try done.
  apply IH. by apply place_rect.
Qed.

(** Last write wins: a cell holds what the last record aimed at it stores,
    and what it held before when no record is aimed at it. *)
Lemma placeAll_cell coords chars g x y :
  rect h w g -> 0 <= x < w -> 0 <= y < h ->
  cellAt (placeAll g coords chars) y x
  = match lastCharAt x y coords chars with
    | Some ch => Some (printable ch)
    | None => cellAt g y x
    end.
Proof using Hh.
  intros Hg Hx Hy. revert chars g Hg.
  induction coords as [|xy coords IH]; intros [|ch chars] g Hg; simpl; try done.
  rewrite IH by (by apply place_rect).
  destruct (lastCharAt x y coords chars); [done|].
  rewrite place_cell by (done || lia).
  destruct (Z.eqb_spec (fst xy) x) as [Hex|Hex], (Z.eqb_spec (snd xy) y) as [Hey|Hey];
    simpl.
  - assert (inside w h xy = true) as -> by (apply inside_spec; lia).
    rewrite <- Hex, <- Hey, !Z.eqb_refl. done.
  - destruct (Z.eqb_spec y (snd xy)); [lia|]. by rewrite andb_false_r.
  - destruct (Z.eqb_spec x (fst xy)); [lia|]. by rewrite andb_false_r.
  - destruct (Z.eqb_spec x (fst xy)); [lia|]. by rewrite andb_false_r.
Qed.

(** The turns that take the [continue] are those of the records outside. *)
Lemma skipped_rect coords chars g :
  rect h w g -> length coords = length chars ->
  skipped g coords chars = filter (fun xy => inside w h xy = false) coords.
Proof using Hh.
  revert chars g. induction coords as [|xy coords IH]; intros [|ch chars] g Hg Hlen;
    simpl in *; try done.
  rewrite (outOfBounds_rect _ _ Hg).
  rewrite IH by (by apply place_rect || lia).
  rewrite filter_cons. destruct (inside w h xy) eqn:Hin; simpl.
  - destruct (decide (true = false)); done.
  - destruct (decide (false = false)); done.
Qed.

(** Skipped records leave the grid as it is: the loop over all records ends
    in the grid of the loop over the records inside. *)
Lemma placeAll_keepInside (recs : list ((Z * Z) * charValue)) g :
  rect h w g ->
  placeAll g (map fst recs) (map snd recs)
  = placeAll g (map fst (keepInside w h recs)) (map snd (keepInside w h recs)).
Proof using Hh.
  revert g. induction recs as [|[xy ch] recs IH]; intros g Hg; [done|].
  unfold keepInside in *. rewrite filter_cons. simpl.
  destruct (decide (inside w h xy = true)) as [Hin|Hin]; simpl.
  - apply IH. by apply place_rect.
  - rewrite place_outside.
    + by apply IH.
    + rewrite (outOfBounds_rect _ _ Hg). by destruct (inside w h xy).
Qed.

End Placing.

(** ** Grid size and printing of the row-text decoder *)

Section Sizes.

Import RowText.

Lemma fold_max_some (vs : list Z) (a : Z) :
  fold_left (fun acc v => match acc with
                          | None => Some v
                          | Some m => Some (Z.max m v)
                          end) vs (Some a)
  = Some (fold_left Z.max vs a).
Proof. revert a. induction vs as [|v vs IH]; intros a; simpl; [done|apply IH]. Qed.

Lemma fold_max_bounds (vs : list Z) (a : Z) :
  a <= fold_left Z.max vs a
  /\ Forall (fun v => v <= fold_left Z.max vs a) vs
  /\ (fold_left Z.max vs a = a \/ In (fold_left Z.max vs a) vs).
Proof.
  revert a. induction vs as [|v vs IH]; intros a; simpl.
  - repeat split; [lia|constructor|by left].
  - destruct (IH (Z.max a v)) as (Hle & Hall & Hin). repeat split.
    + lia.
    + constructor; [lia|done].
    + destruct Hin as [Heq|Hin]; [|by right; right].
      rewrite Heq. destruct (Z.max_spec a v) as [[_ ->]|[_ ->]]; [right; by left|by left].
Qed.

Lemma Math_max_cons (v : Z) (vs : list Z) :
  Math_max (v :: vs) = Some (fold_left Z.max vs v).
Proof. unfold Math_max. simpl. apply fold_max_some. Qed.

Lemma Math_max_greatest (vs : list Z) (m : Z) :
  Math_max vs = Some m -> greatest m vs.
Proof.
  destruct vs as [|v vs]; [done|]. rewrite Math_max_cons. intros [= <-].
  destruct (fold_max_bounds vs v) as (Hle & Hall & Hin). split.
  - destruct Hin as [->|Hin]; [by left|by right].
  - by constructor.
Qed.

Lemma Math_max_is_Some (vs : list Z) : vs <> [] -> exists m, Math_max vs = Some m.
Proof. destruct vs as [|v vs]; [done|]. intros _. rewrite Math_max_cons. eauto. Qed.

Lemma gridSize_ok (coords : list (Z * Z)) (mx my : Z) :
  Math_max (map fst coords) = Some mx -> Math_max (map snd coords) = Some my ->
  0 <= mx -> 0 <= my ->
  gridSize coords = Ok (mx + 1, my + 1).
Proof.
  intros Hx Hy Hmx Hmy. unfold gridSize. rewrite Hx, Hy. simpl.
  destruct (Z.leb_spec (mx + 1) 0); [lia|].
  destruct (Z.leb_spec (my + 1) 0); [lia|]. done.
Qed.

Lemma gridSize_inv (coords : list (Z * Z)) (w h : Z) :
  gridSize coords = Ok (w, h) ->
  exists mx my, Math_max (map fst coords) = Some mx
                /\ Math_max (map snd coords) = Some my
                /\ w = mx + 1 /\ h = my + 1 /\ 0 < w /\ 0 < h.
Proof.
  unfold gridSize.
  destruct (Math_max (map fst coords)) as [mx|], (Math_max (map snd coords)) as [my|];
    simpl; try done.
  destruct (Z.leb_spec (mx + 1) 0), (Z.leb_spec (my + 1) 0); simpl; try done.
  intros [= <- <-]. exists mx, my. repeat split; lia.
Qed.

(** The printing loop writes the rows from the last to the first. *)
Lemma printRows_take (g : grid) (n : nat) :
  (n <= length g)%nat -> printRows g n = map (join []) (reverse (take n g)).
Proof.
  induction n as [|n IH]; intros Hn; simpl.
  - done.
  - destruct (lookup_lt_is_Some_2 g n) as [row Hrow]; [lia|].
    rewrite (take_S_r _ _ _ Hrow), reverse_snoc, Hrow. simpl.
    by rewrite IH by lia.
Qed.

Lemma printRows_reverse (g : grid) :
  printRows g (length g) = map (join []) (reverse g).
Proof. rewrite printRows_take by done. by rewrite firstn_all. Qed.

Lemma length_printRows (g : grid) (n : nat) : length (printRows g n) = n.
Proof. induction n as [|n IH]; simpl; [done|by rewrite IH]. Qed.

(** Printed line [i] is row [length g - 1 - i]. *)
Lemma printRows_lookup (g : grid) (i : nat) (row : list jsstring) :
  g !! (length g - 1 - i)%nat = Some row -> (i < length g)%nat ->
  printRows g (length g) !! i = Some (join [] row).
Proof.
  intros Hrow Hi. rewrite printRows_reverse, list_lookup_fmap.
  rewrite reverse_lookup by done.
  replace (length g - S i)%nat with (length g - 1 - i)%nat by lia.
  by rewrite Hrow.
Qed.

End Sizes.

(** ** Extraction of the rows *)

Section Extraction.

Import RowText.

Implicit Types (text : jsstring) (p : code_unit -> bool).

Lemma runs_none p text :
  Forall (fun c => p c = false) text -> runs p text = [].
Proof.
  induction 1 as [|c s Hc _ IH]; simpl; [done|]. by rewrite Hc.
Qed.

Lemma runs_some p text c :
  In c text -> p c = true -> runs p text <> [].
Proof.
  induction text as [|d s IH]; simpl; [done|]. intros [->|Hin] Hc.
  - rewrite Hc. destruct s as [|c' s']; [done|].
    destruct (p c'); [|done]. by destruct (runs p (c' :: s')).
  - specialize (IH Hin Hc). destruct (p d); [|done].
    destruct s as [|c' s']; [done|].
    destruct (p c'); [|done]. by destruct (runs p (c' :: s')).
Qed.

(** A text of one class is at most one run. *)
Lemma runs_whole p text :
  Forall (fun c => p c = true) text -> (length (runs p text) <= 1)%nat.
Proof.
  induction 1 as [|c s Hc Hs IH]; simpl; [lia|]. rewrite Hc.
  destruct s as [|c' s']; [simpl; lia|].
  inversion Hs as [|? ? Hc' _]; subst. rewrite Hc'.
  destruct (runs p (c' :: s')); simpl in *; lia.
Qed.

Lemma runs_in_class p text :
  Forall (Forall (fun c => p c = true)) (runs p text).
Proof.
  induction text as [|c s IH]; simpl; [constructor|].
  destruct (p c) eqn:Hc; [|done].
  destruct s as [|c' s']; [by repeat constructor|].
  destruct (p c') eqn:Hc'.
  - destruct (runs p (c' :: s')) as [|r rs]; [by repeat constructor|].
    inversion IH; subst. constructor; [by constructor|done].
  - constructor; [by repeat constructor|done].
Qed.

Lemma digits_or_not text :
  Forall (fun c => isDigit c = true) text
  \/ exists c, In c text /\ isNonDigit c = true.
Proof.
  induction text as [|c s [IH|(d & Hd & Hnd)]].
  - left. constructor.
  - destruct (isDigit c) eqn:Hc.
    + left. by constructor.
    + right. exists c. split; [by left|]. unfold isNonDigit. by rewrite Hc.
  - right. exists d. split; [by right|done].
Qed.

Lemma digitValue_range (c : code_unit) :
  isDigit c = true -> 0 <= digitValue c <= 9.
Proof.
  unfold isDigit, digitValue. intros Hc.
  apply andb_true_iff in Hc as [Hlo Hhi]. apply N.leb_le in Hlo, Hhi. lia.
Qed.

Lemma parse_acc_nonneg (s : jsstring) (acc : Z) :
  Forall (fun c => isDigit c = true) s -> 0 <= acc ->
  0 <= fold_left (fun a c => 10 * a + digitValue c) s acc.
Proof.
  intros Hs. revert acc. induction Hs as [|c s Hc _ IH]; intros acc Hacc; simpl; [done|].
  apply IH. pose proof (digitValue_range _ Hc). lia.
Qed.

(** A digit run parses to a natural number. *)
Lemma parseInt10_nonneg (s : jsstring) :
  Forall (fun c => isDigit c = true) s -> 0 <= parseInt10 s.
Proof. intros Hs. by apply parse_acc_nonneg. Qed.

(** A row with a code unit that is no digit throws on [m.trim()]. *)
Lemma extractRow_nonDigit text c :
  In c text -> isNonDigit c = true -> extractRow text = Err trimError.
Proof.
  intros Hin Hc. pose proof (runs_some _ _ _ Hin Hc) as Hruns.
  unfold extractRow, matchAll.
  destruct (runs isNonDigit text) as [|r rs]; [done|]. reflexivity.
Qed.

(** A row of digits only, the empty one included, is rejected by name. *)
Lemma extractRow_digits text :
  Forall (fun c => isDigit c = true) text ->
  extractRow text
  = Err (DataError (lit "Row missing at least two coordinates: " ++ quoted text)).
Proof.
  intros Hd. unfold extractRow, matchAll.
  rewrite (runs_none isNonDigit).
  - pose proof (runs_whole _ _ Hd) as Hlen. simpl.
    destruct (runs isDigit text) as [|r [|r' rs]]; simpl in *; [done|done|lia].
  - eapply Forall_impl; [exact Hd|]. intros c Hc. unfold isNonDigit. by rewrite Hc.
Qed.

(** So a row with two digit runs, which are apart, always throws on
    [m.trim()]... *)
Lemma extractRow_two_runs text :
  (2 <= length (runs isDigit text))%nat -> extractRow text = Err trimError.
Proof.
  intros Hlen. destruct (digits_or_not text) as [Hd|(c & Hin & Hc)].
  - pose proof (runs_whole _ _ Hd). lia.
  - by eapply extractRow_nonDigit.
Qed.

(** ... and no row at all gives a record. *)
Lemma extractRow_throws text : exists e, extractRow text = Err e.
Proof.
  destruct (digits_or_not text) as [Hd|(c & Hin & Hc)].
  - rewrite extractRow_digits by done. eauto.
  - erewrite extractRow_nonDigit by done. eauto.
Qed.

(** The coordinates of a record are those of digit runs. *)
Lemma extractRow_nonneg text xy ch :
  extractRow text = Ok (xy, ch) -> 0 <= fst xy /\ 0 <= snd xy.
Proof.
  unfold extractRow.
  destruct (mapM call_trim (matchAll isNonDigit text)) as [trimmed|e]; simpl; [|done].
  unfold matchAll. pose proof (runs_in_class isDigit text) as Hcls.
  rewrite map_map. simpl. rewrite map_id.
  destruct (runs isDigit text) as [|xStr [|yStr rest]]; try done.
  destruct (negb (Number_isFinite (parseInt10 xStr))
            || negb (Number_isFinite (parseInt10 yStr))); [done|].
  intros [= <- _]. simpl.
  inversion Hcls as [|? ? Hx Hcls']; subst. inversion Hcls' as [|? ? Hy _]; subst.
  split; by apply parseInt10_nonneg.
Qed.

(** Every row either throws or adds one pair: none is passed over. *)
Lemma extractLoop_ok rows coords chars coords' chars' :
  extractLoop rows coords chars = Ok (coords', chars') ->
  length coords' = (length coords + length rows)%nat
  /\ length chars' = (length chars + length rows)%nat
  /\ (Forall (fun xy => 0 <= fst xy /\ 0 <= snd xy) coords ->
      Forall (fun xy => 0 <= fst xy /\ 0 <= snd xy) coords').
Proof.
  revert coords chars. induction rows as [|text rows IH]; intros coords chars; simpl.
  - intros [= <- <-]. repeat split; auto with lia.
  - destruct (extractRow text) as [[xy ch]|e] eqn:Hrow; simpl; [|done].
    intros Hloop. destruct (IH _ _ Hloop) as (Hc & Hh & Hnn).
    rewrite length_app in Hc, Hh. simpl in *. repeat split; [lia|lia|].
    intros Hall. apply Hnn. apply Forall_app. split; [done|].
    constructor; [|constructor]. by eapply extractRow_nonneg.
Qed.

Lemma extractDataFromRows_ok rows coords chars :
  extractDataFromRows rows = Ok (coords, chars) ->
  length coords = length rows /\ length chars = length rows
  /\ Forall (fun xy => 0 <= fst xy /\ 0 <= snd xy) coords.
Proof.
  intros Hok. destruct (extractLoop_ok _ _ _ _ _ Hok) as (Hc & Hh & Hnn).
  simpl in *. repeat split; [done|done|]. apply Hnn. constructor.
Qed.

(** With [m.trim()] as it is, only the empty sequence of rows is extracted. *)
Lemma extractDataFromRows_only_empty rows coords chars :
  extractDataFromRows rows = Ok (coords, chars) ->
  rows = [] /\ coords = [] /\ chars = [].
Proof.
  unfold extractDataFromRows. destruct rows as [|text rows]; simpl.
  - by intros [= <- <-].
  - destruct (extractRow_throws text) as [e ->]. done.
Qed.

End Extraction.

(** ** The row-text decoder: extraction as it runs *)

Section RowTextClaims.

Import RowText.

(** C2: the character field of a row with two digit runs is meant to be
    the array of its trimmed non-digit runs.  On the row "X 0 0" the digit
    runs are "0" and "0" and the non-digit runs are "X " and " ", but
    [m.trim()] is called on the match array and throws: no record is
    produced.  With the record that was meant, the loop stores the whole
    [String(ch)] in the cell. *)
Theorem extract_character_field_throws :
  map m0 (matchAll isDigit (lit "X 0 0")) = [lit "0"; lit "0"]
  /\ map m0 (matchAll isNonDigit (lit "X 0 0")) = [lit "X "; lit " "]
  /\ extractDataFromRows [lit "X 0 0"] = Err trimError
  /\ buildGrid [(0, 0)] [Arr [lit "X"]] = Ok [[lit "X"]].
Proof. vm_compute. repeat split. Qed.

(** C3: the rows "X 0 0" and "Y 1 1" are meant to print a 2 by 2 grid from
    the bottom up.  The printing loop does so on the records meant (the row
    y=1 with 'Y' first, then the row y=0 with 'X' in column 0), but the
    extraction of these rows throws on [m.trim()] and nothing is printed. *)
Theorem render_two_rows_throws :
  renderFromUrl [lit "X 0 0"; lit "Y 1 1"] = Err trimError
  /\ buildAndRenderGrid [(0, 0); (1, 1)] [Arr [lit "X"]; Arr [lit "Y"]]
     = Ok [lit " Y"; lit "X "].
Proof. vm_compute. repeat split. Qed.

(** C4: a row with fewer than two digit runs is meant to fail with a
    validation error that quotes its text.  The row "X 5" has one digit
    run; it fails with the [TypeError] of [m.trim()], whose message does
    not hold the text.  A row of digits only does fail as meant. *)
Theorem extract_one_digit_run_throws :
  map m0 (matchAll isDigit (lit "X 5")) = [lit "5"]
  /\ extractDataFromRows [lit "X 5"] = Err trimError
  /\ includes (message trimError) (lit "X 5") = false
  /\ extractDataFromRows [lit "5"]
     = Err (DataError (lit "Row missing at least two coordinates: " ++ quoted (lit "5")))
  /\ includes (lit "Row missing at least two coordinates: " ++ quoted (lit "5")) (lit "5")
     = true.
Proof. vm_compute. repeat split. Qed.

(** C8: with no coordinate and no character the rendering writes one empty
    line and throws nothing, also when reached from an empty sequence of
    rows. *)
Theorem render_empty_one_line :
  buildAndRenderGrid [] [] = Ok [ [] ]
  /\ extractDataFromRows [] = Ok ([], [])
  /\ renderFromUrl [] = Ok [ [] ].
Proof. repeat split. Qed.

End RowTextClaims.

(** ** The plain-text decoder: bounds and writes *)

Section PlainTextGrid.

Import PlainText.

Implicit Types (b : Bounds) (c : character) (cs : list character).

Lemma extend_fold cs b :
  exists b', fold_left extend cs (Some b) = Some b'
    /\ (minX b' <= minX b /\ maxX b <= maxX b' /\ minY b' <= minY b /\ maxY b <= maxY b')
    /\ Forall (within b') cs
    /\ (minX b' = minX b \/ In (minX b') (map x cs))
    /\ (maxX b' = maxX b \/ In (maxX b') (map x cs))
    /\ (minY b' = minY b \/ In (minY b') (map y cs))
    /\ (maxY b' = maxY b \/ In (maxY b') (map y cs)).
Proof.
  revert b. induction cs as [|c cs IH]; intros b; simpl.
  - exists b. repeat split; (lia || constructor || by left).
  - destruct (IH {| minX := Z.min (minX b) (x c); maxX := Z.max (maxX b) (x c);
                    minY := Z.min (minY b) (y c); maxY := Z.max (maxY b) (y c) |})
      as (b' & Hfold & Hle & Hall & H1 & H2 & H3 & H4).
    simpl in *. exists b'. split; [done|]. split; [lia|].
    split; [constructor; [unfold within; lia|done]|].
    repeat split.
    + destruct H1 as [H1|H1]; [|by right; right].
      destruct (Z.min_spec (minX b) (x c)) as [[_ E]|[_ E]]; rewrite E in H1;
        [by left|right; by left].
    + destruct H2 as [H2|H2]; [|by right; right].
      destruct (Z.max_spec (maxX b) (x c)) as [[_ E]|[_ E]]; rewrite E in H2;
        [right; by left|by left].
    + destruct H3 as [H3|H3]; [|by right; right].
      destruct (Z.min_spec (minY b) (y c)) as [[_ E]|[_ E]]; rewrite E in H3;
        [by left|right; by left].
    + destruct H4 as [H4|H4]; [|by right; right].
      destruct (Z.max_spec (maxY b) (y c)) as [[_ E]|[_ E]]; rewrite E in H4;
        [right; by left|by left].
Qed.

(** The bounds of a record set that is not empty are the extremes of its
    coordinates. *)
Lemma computeBounds_extremes cs :
  cs <> [] ->
  exists b, computeBounds cs = Some b
    /\ Forall (within b) cs
    /\ least (minX b) (map x cs) /\ greatest (maxX b) (map x cs)
    /\ least (minY b) (map y cs) /\ greatest (maxY b) (map y cs).
Proof.
  destruct cs as [|c cs]; [done|]. intros _. unfold computeBounds. simpl.
  destruct (extend_fold cs {| minX := x c; maxX := x c; minY := y c; maxY := y c |})
    as (b & Hfold & Hle & Hall & H1 & H2 & H3 & H4).
  simpl in *. exists b. split; [done|].
  assert (within b c) as Hc by (unfold within; lia).
  split; [by constructor|].
  unfold least, greatest. simpl.
  repeat split;
    try (constructor; [unfold within in Hc; lia|];
         apply List.Forall_forall; intros v Hv;
         apply List.in_map_iff in Hv as (c' & <- & Hc');
         pose proof (proj1 (List.Forall_forall _ _) Hall c' Hc') as Hw;
         unfold within in Hw; lia).
  - destruct H1 as [->|H1]; [by left|by right].
  - destruct H2 as [->|H2]; [by left|by right].
  - destruct H3 as [->|H3]; [by left|by right].
  - destruct H4 as [->|H4]; [by left|by right].
Qed.

Variable b : Bounds.

(** A write for a record within the bounds finds its row. *)
Lemma write_within (g : grid) c :
  rect (maxY b - minY b + 1) (maxX b - minX b + 1) g -> within b c ->
  exists g', write b g c = Ok g' /\ rect (maxY b - minY b + 1) (maxX b - minX b + 1) g'
    /\ forall r k, 0 <= r -> 0 <= k ->
         cellAt g' r k
         = if (r =? y c - minY b) && (k =? x c - minX b) then Some (char c)
           else cellAt g r k.
Proof.
  intros Hg [Hx Hy]. unfold write.
  rewrite array_get_nat by lia.
  destruct (rect_row _ _ g (y c - minY b) Hg) as [row Hrow]; [lia|].
  rewrite Hrow. eexists. split; [done|]. split.
  - apply rect_write; [done|lia|done].
  - intros r k Hr Hk.
    apply (cellAt_write (maxY b - minY b + 1) (maxX b - minX b + 1)); try done; lia.
Qed.

Lemma forEach_within cs (g : grid) :
  rect (maxY b - minY b + 1) (maxX b - minX b + 1) g -> Forall (within b) cs ->
  exists g', forEach b g cs = Ok g' /\ rect (maxY b - minY b + 1) (maxX b - minX b + 1) g'
    /\ forall px py, minX b <= px <= maxX b -> minY b <= py <= maxY b ->
         cellAt g' (py - minY b) (px - minX b)
         = match lastCharacterAt px py cs with
           | Some c => Some (char c)
           | None => cellAt g (py - minY b) (px - minX b)
           end.
Proof.
  intros Hg Hall. revert g Hg. induction Hall as [|c cs Hc _ IH]; intros g Hg; simpl.
  - exists g. split; [done|]. split; [done|]. done.
  - destruct (write_within g c Hg Hc) as (g1 & -> & Hg1 & Hcell1). simpl.
    destruct (IH g1 Hg1) as (g' & -> & Hg' & Hcell). exists g'.
    split; [done|]. split; [done|].
    intros px py Hpx Hpy. rewrite Hcell by done.
    destruct (lastCharacterAt px py cs); [done|].
    rewrite Hcell1 by lia.
    destruct (Z.eqb_spec (x c) px) as [Hex|Hex], (Z.eqb_spec (y c) py) as [Hey|Hey];
      simpl.
    + rewrite <- Hex, <- Hey, !Z.eqb_refl. done.
    + destruct (Z.eqb_spec (py - minY b) (y c - minY b)); [lia|]. done.
    + destruct (Z.eqb_spec (px - minX b) (x c - minX b)); [lia|]. by rewrite andb_false_r.
    + destruct (Z.eqb_spec (py - minY b) (y c - minY b)); [lia|]. done.
Qed.

End PlainTextGrid.

Section PlainTextRasterize.

Import PlainText.

(** The grid of a record set that is not empty: all writes succeed. *)
Lemma rasterize_ok (cs : list character) :
  cs <> [] ->
  exists b' g, computeBounds cs = Some b' /\ rasterize cs = Ok g
    /\ rect (maxY b' - minY b' + 1) (maxX b' - minX b' + 1) g
    /\ forall px py, minX b' <= px <= maxX b' -> minY b' <= py <= maxY b' ->
         cellAt g (py - minY b') (px - minX b')
         = match lastCharacterAt px py cs with
           | Some c => Some (char c)
           | None => Some space
           end.
Proof.
  intros Hne. destruct (computeBounds_extremes cs Hne) as (b' & Hb & Hall & _).
  assert (minX b' <= maxX b' /\ minY b' <= maxY b') as [Hwx Hwy].
  { destruct cs as [|c cs']; [done|]. inversion Hall as [|? ? Hc _]; subst.
    unfold within in Hc. lia. }
  unfold rasterize. destruct cs as [|c0 cs0] eqn:Hcs; [done|].
  rewrite <- Hcs in *. replace (length cs =? 0)%nat with false
    by (rewrite Hcs; done).
  rewrite Hb.
  destruct (forEach_within b' cs
              (blankGrid (maxY b' - minY b' + 1) (maxX b' - minX b' + 1)))
    as (g & Hfor & Hg & Hcell); [apply rect_blank; lia|done|].
  exists b', g. split; [done|]. split; [done|]. split; [done|].
  intros px py Hpx Hpy. rewrite Hcell by done.
  destruct (lastCharacterAt px py cs); [done|].
  apply cellAt_blank; lia.
Qed.

End PlainTextRasterize.

(** ** The plain-text decoder: lines and the no-data error *)

Section PlainTextLines.

Import PlainText.

Implicit Types (l line : jsstring) (ls : list jsstring).

Lemma split_app_sep l (rest : jsstring) :
  oneLine l -> split newline (l ++ newline :: rest) = l :: split newline rest.
Proof.
  induction 1 as [|c l Hc _ IH]; simpl; [done|].
  destruct (N.eqb_spec c newline); [done|]. by rewrite IH.
Qed.

Lemma split_oneLine l : oneLine l -> split newline l = [l].
Proof.
  induction 1 as [|c l Hc _ IH]; simpl; [done|].
  destruct (N.eqb_spec c newline); [done|]. by rewrite IH.
Qed.

(** Splitting the text of some lines at the newlines gives the lines back. *)
Lemma split_join ls :
  ls <> [] -> Forall oneLine ls -> split newline (join [newline] ls) = ls.
Proof.
  intros Hne Hall. induction Hall as [|l ls Hl Hls IH]; [done|].
  destruct ls as [|l' ls'].
  - simpl. by apply split_oneLine.
  - change (join [newline] (l :: l' :: ls'))
      with (l ++ newline :: join [newline] (l' :: ls')).
    rewrite split_app_sep by done. by rewrite IH.
Qed.

Lemma parseCharacters_join ls :
  Forall oneLine ls -> parseCharacters (join [newline] ls) = recordsOfLines ls.
Proof.
  intros Hall. destruct ls as [|l ls'] eqn:Hls; [done|].
  unfold parseCharacters. fold newline. by rewrite split_join.
Qed.

Lemma recordsOfLines_app ls1 ls2 :
  recordsOfLines (ls1 ++ ls2) = recordsOfLines ls1 ++ recordsOfLines ls2.
Proof.
  unfold recordsOfLines. by rewrite map_app, filter_app, omap_app.
Qed.

Lemma parseLine_none line :
  (forall p, In p patterns -> js_match p line = None) ->
  parseLine patterns line = None.
Proof.
  intros Hno. unfold patterns in *. simpl.
  rewrite !Hno; simpl; auto 10.
Qed.

Lemma recordsOfLines_dropped line :
  parseLine patterns (trim line) = None -> recordsOfLines [line] = [].
Proof.
  intros Hno. unfold recordsOfLines.
  remember (parseLine patterns) as parse eqn:Hparse.
  simpl. rewrite filter_cons.
  destruct (decide (truthy (trim line) = true)); simpl; [by rewrite Hno|done].
Qed.

(** The writing loop throws nothing but the error of a write. *)
Lemma forEach_error (b : Bounds) (cs : list character) (g : grid) (e : error) :
  forEach b g cs = Err e -> e = TypeError (lit "Cannot set properties of undefined").
Proof.
  revert g. induction cs as [|c cs IH]; intros g; simpl; [done|].
  unfold write. destruct (array_get g (y c - minY b)); simpl; [apply IH|].
  by intros [= <-].
Qed.

(** The no-data error is thrown for the empty record set and for no other:
    with a record, what is thrown, if anything, is thrown by a write. *)
Lemma decode_noData content :
  decodeSecretMessage content = Err noData <-> parseCharacters content = [].
Proof.
  unfold decodeSecretMessage, rasterize.
  destruct (parseCharacters content) as [|c cs]; [done|].
  change (length (c :: cs) =? 0)%nat with false. cbv iota.
  split; [|done]. destruct (computeBounds (c :: cs)) as [b|]; [|done].
  destruct (forEach b _ (c :: cs)) as [g|e] eqn:Hloop; [done|].
  apply forEach_error in Hloop as ->. done.
Qed.

End PlainTextLines.

(** ** The row-text decoder: building the grid *)

Section RowTextGrid.

Import RowText.

Implicit Types (coords : list (Z * Z)) (chars : list charValue).

Lemma buildGrid_ok coords chars w h :
  gridSize coords = Ok (w, h) ->
  buildGrid coords chars = Ok (placeAll (blankGrid h w) coords chars).
Proof. intros Hsize. unfold buildGrid. by rewrite Hsize. Qed.

Lemma buildAndRenderGrid_ok coords chars g :
  length coords = length chars -> coords <> [] -> buildGrid coords chars = Ok g ->
  buildAndRenderGrid coords chars = Ok (printRows g (length g)).
Proof.
  intros Hlen Hne Hg. unfold buildAndRenderGrid.
  rewrite Hlen, Nat.eqb_refl. simpl. rewrite <- Hlen.
  destruct coords as [|xy coords']; [done|]. simpl. by rewrite Hg.
Qed.

Lemma gridSize_nonempty coords w h : gridSize coords = Ok (w, h) -> coords <> [].
Proof. intros Hsize ->. done. Qed.

(** Coordinates that are not negative pass the size check, and lie inside
    the grid of that size. *)
Lemma gridSize_nonneg coords :
  coords <> [] -> Forall (fun xy => 0 <= fst xy /\ 0 <= snd xy) coords ->
  exists mx my, greatest mx (map fst coords) /\ greatest my (map snd coords)
    /\ gridSize coords = Ok (mx + 1, my + 1)
    /\ Forall (fun xy => inside (mx + 1) (my + 1) xy = true) coords.
Proof.
  intros Hne Hnn.
  destruct (Math_max_is_Some (map fst coords)) as [mx Hmx]; [by destruct coords|].
  destruct (Math_max_is_Some (map snd coords)) as [my Hmy]; [by destruct coords|].
  pose proof (Math_max_greatest _ _ Hmx) as [Hinx Hallx].
  pose proof (Math_max_greatest _ _ Hmy) as [Hiny Hally].
  assert (forall xy, In xy coords ->
            0 <= fst xy <= mx /\ 0 <= snd xy <= my) as Hbox.
  { intros xy Hin.
    pose proof (proj1 (List.Forall_forall _ _) Hnn xy Hin) as [? ?].
    pose proof (proj1 (List.Forall_forall _ _) Hallx (fst xy) (List.in_map fst _ _ Hin)).
    pose proof (proj1 (List.Forall_forall _ _) Hally (snd xy) (List.in_map snd _ _ Hin)).
    simpl in *. lia. }
  assert (0 <= mx /\ 0 <= my) as [H0x H0y].
  { apply List.in_map_iff in Hinx as (xy1 & <- & Hin1).
    apply List.in_map_iff in Hiny as (xy2 & <- & Hin2).
    pose proof (Hbox _ Hin1). pose proof (Hbox _ Hin2). lia. }
  exists mx, my. split; [done|]. split; [done|].
  split; [by apply gridSize_ok|].
  apply List.Forall_forall. intros xy Hin. apply inside_spec.
  pose proof (Hbox _ Hin). lia.
Qed.

Lemma lastCharAt_hit coords chars xy :
  length coords = length chars -> In xy coords ->
  exists ch, lastCharAt (fst xy) (snd xy) coords chars = Some ch.
Proof.
  revert chars. induction coords as [|xy' coords IH]; intros [|ch chars] Hlen Hin;
    simpl in *; try done.
  destruct Hin as [->|Hin].
  - destruct (lastCharAt (fst xy) (snd xy) coords chars); [eauto|].
    rewrite !Z.eqb_refl. simpl. eauto.
  - destruct (IH chars) as [ch' ->]; [lia|done|]. eauto.
Qed.

(** A record outside is the last record at no cell of the grid. *)
Lemma lastCharAt_keepInside (w h : Z) (recs : list ((Z * Z) * charValue)) (px py : Z) :
  0 <= px < w -> 0 <= py < h ->
  lastCharAt px py (map fst (keepInside w h recs)) (map snd (keepInside w h recs))
  = lastCharAt px py (map fst recs) (map snd recs).
Proof.
  intros Hpx Hpy. induction recs as [|[xy ch] recs IH]; [done|].
  unfold keepInside in *. rewrite filter_cons. simpl.
  destruct (decide (inside w h xy = true)) as [Hin|Hout]; simpl; rewrite IH; [done|].
  destruct (lastCharAt px py (map fst recs) (map snd recs)); [done|].
  destruct (Z.eqb_spec (fst xy) px) as [Hx|], (Z.eqb_spec (snd xy) py) as [Hy|];
    simpl; try done.
  exfalso. apply Hout. unfold inside.
  rewrite !andb_true_iff, !Z.leb_le, !Z.ltb_lt. lia.
Qed.

Lemma printable_whole (ch : charValue) :
  String_ ch <> [] -> printable ch = String_ ch.
Proof. unfold printable. by destruct (String_ ch). Qed.

(** A record list without negative coordinates never takes the [continue],
    and every record finds the cell of its coordinates written. *)
Lemma nonneg_never_skipped coords chars :
  coords <> [] -> length coords = length chars ->
  Forall (fun xy => 0 <= fst xy /\ 0 <= snd xy) coords ->
  exists w h g, gridSize coords = Ok (w, h)
    /\ greatest (w - 1) (map fst coords) /\ greatest (h - 1) (map snd coords)
    /\ Forall (fun xy => 0 <= fst xy < w /\ 0 <= snd xy < h) coords
    /\ skipped (blankGrid h w) coords chars = []
    /\ buildGrid coords chars = Ok g
    /\ forall xy, In xy coords ->
         exists ch, lastCharAt (fst xy) (snd xy) coords chars = Some ch
                    /\ cellAt g (snd xy) (fst xy) = Some (printable ch).
Proof.
  intros Hne Hlen Hnn.
  destruct (gridSize_nonneg coords Hne Hnn) as (mx & my & Hgx & Hgy & Hsize & Hin).
  destruct (gridSize_inv _ _ _ Hsize) as (_ & _ & _ & _ & _ & _ & Hw & Hh).
  pose proof (rect_blank (my + 1) (mx + 1)) as Hblank.
  exists (mx + 1), (my + 1), (placeAll (blankGrid (my + 1) (mx + 1)) coords chars).
  split; [done|].
  replace (mx + 1 - 1) with mx by lia. replace (my + 1 - 1) with my by lia.
  split; [done|]. split; [done|]. split.
  { eapply Forall_impl; [exact Hin|]. intros xy Hxy. by apply inside_spec in Hxy. }
  split.
  { rewrite (skipped_rect (my + 1) (mx + 1)) by (done || apply Hblank; lia).
    clear -Hin. induction Hin as [|xy coords Hxy _ IH]; [done|].
    rewrite filter_cons. destruct (decide (inside (mx + 1) (my + 1) xy = false));
      [congruence|done]. }
  split; [by apply buildGrid_ok|].
  intros xy Hxy. destruct (lastCharAt_hit coords chars xy Hlen Hxy) as [ch Hch].
  exists ch. split; [done|].
  pose proof (proj1 (List.Forall_forall _ _) Hin xy Hxy) as Hins.
  apply inside_spec in Hins.
  rewrite (placeAll_cell (my + 1) (mx + 1)) by (done || lia || apply Hblank; lia).
  by rewrite Hch.
Qed.

End RowTextGrid.

(** ** Dimensions, dropped lines, skipped records, collisions *)

Section Claims.

Import PlainText RowText.

(** C5: for a record set that is not empty the plain-text grid (records
    that are feasible: coordinates from 0 to below the largest length of an
    array, where the digit runs parse exactly) has maxY-minY+1 rows of
    maxX-minX+1 columns, one printed line per row after the heading, and the
    row-text grid (records of the data model: coordinates not negative) has
    maxY+1 rows of maxX+1 columns, one printed line per row; the minima and
    maxima are the extremes of the coordinates. *)
Theorem grid_dimensions (cs : list character) (coords : list (Z * Z))
    (chars : list charValue) :
  cs <> [] -> Forall feasible cs ->
  coords <> [] -> length coords = length chars ->
  Forall (fun xy => 0 <= fst xy /\ 0 <= snd xy) coords ->
  (exists b g,
      computeBounds cs = Some b
      /\ least (minX b) (map x cs) /\ greatest (maxX b) (map x cs)
      /\ least (minY b) (map y cs) /\ greatest (maxY b) (map y cs)
      /\ rasterize cs = Ok g
      /\ rect (maxY b - minY b + 1) (maxX b - minX b + 1) g
      /\ forall content, parseCharacters content = cs ->
           decodeSecretMessage content = Ok (lit "Secret Message:" :: map (join []) g))
  /\ (exists mx my g,
         greatest mx (map fst coords) /\ greatest my (map snd coords)
         /\ buildGrid coords chars = Ok g
         /\ rect (my + 1) (mx + 1) g
         /\ buildAndRenderGrid coords chars = Ok (printRows g (length g))
         /\ Z.of_nat (length (printRows g (length g))) = my + 1).
Proof.
  intros Hcs _ Hne Hlen Hnn. split.
  - destruct (computeBounds_extremes cs Hcs) as (b & Hb & _ & H1 & H2 & H3 & H4).
    destruct (rasterize_ok cs Hcs) as (b' & g & Hb' & Hg & Hrect & _).
    assert (b' = b) as -> by congruence.
    exists b, g. repeat (split; [done|]).
    intros content Hcontent. unfold decodeSecretMessage. by rewrite Hcontent, Hg.
  - destruct (gridSize_nonneg coords Hne Hnn) as (mx & my & Hgx & Hgy & Hsize & _).
    destruct (gridSize_inv _ _ _ Hsize) as (_ & _ & _ & _ & _ & _ & Hw & Hh).
    pose proof (buildGrid_ok coords chars _ _ Hsize) as Hg.
    assert (rect (my + 1) (mx + 1) (placeAll (blankGrid (my + 1) (mx + 1)) coords chars))
      as Hrect by (apply placeAll_rect; [lia|apply rect_blank; lia]).
    eexists mx, my, _. repeat (split; [done|]).
    split; [by apply buildAndRenderGrid_ok|].
    rewrite length_printRows. by destruct Hrect.
Qed.

Lemma grid_dimensions_witness :
  (exists b g,
      computeBounds exampleCharacters = Some b /\ rasterize exampleCharacters = Ok g
      /\ rect (maxY b - minY b + 1) (maxX b - minX b + 1) g)
  /\ (exists mx my g,
         greatest mx (map fst nonnegCoords) /\ greatest my (map snd nonnegCoords)
         /\ buildGrid nonnegCoords nonnegChars = Ok g /\ rect (my + 1) (mx + 1) g).
Proof.
  destruct (grid_dimensions exampleCharacters nonnegCoords nonnegChars)
    as [(b & g1 & Hb & _ & _ & _ & _ & Hg1 & Hr1 & _)
        (mx & my & g2 & Hmx & Hmy & Hg2 & Hr2 & _)].
  - discriminate.
  - repeat constructor; simpl; unfold maxArrayLength; lia.
  - discriminate.
  - reflexivity.
  - repeat constructor; simpl; lia.
  - split; [exists b, g1|exists mx, my, g2]; auto.
Defined.

(** C6: a line that matches none of the three patterns gives no record,
    and the records of the text are those of the text without that line;
    parsing throws nothing.  The decoder throws the no-data error exactly
    when the record set is empty. *)
Theorem unmatched_line_dropped (before after : list jsstring) (line content : jsstring) :
  Forall oneLine (before ++ line :: after) ->
  (forall p, In p patterns -> js_match p (trim line) = None) ->
  parseLine patterns (trim line) = None
  /\ parseCharacters (join [newline] (before ++ line :: after))
     = parseCharacters (join [newline] (before ++ after))
  /\ (decodeSecretMessage content = Err noData <-> parseCharacters content = []).
Proof.
  intros Hlines Hno. pose proof (parseLine_none _ Hno) as Hnone.
  split; [done|]. split.
  - apply Forall_app in Hlines as [Hb Hla]. inversion Hla as [|? ? Hl Ha]; subst.
    rewrite !parseCharacters_join
      by (apply Forall_app; split; [done|]; by try constructor).
    change (line :: after) with ([line] ++ after).
    rewrite !recordsOfLines_app, recordsOfLines_dropped by done. done.
  - apply decode_noData.
Qed.

Lemma unmatched_line_dropped_witness :
  parseLine patterns (trim (lit "  hello 7 ")) = None
  /\ parseCharacters (join [newline] [lit "A 3 4"; lit "  hello 7 "; lit "C 0 0"])
     = parseCharacters (join [newline] [lit "A 3 4"; lit "C 0 0"])
  /\ decodeSecretMessage (lit "  hello 7 ") = Err noData.
Proof.
  destruct (unmatched_line_dropped [lit "A 3 4"] [lit "C 0 0"] (lit "  hello 7 ")
              (lit "  hello 7 ")) as (Hnone & Hsame & Hiff).
  - repeat constructor; discriminate.
  - intros p [<-|[<-|[<-|[]]]]; reflexivity.
  - split; [exact Hnone|]. split; [exact Hsame|]. apply Hiff. reflexivity.
Defined.

(** C7: in the placing loop a record with x < 0, y < 0, y >= height or
    x >= width takes the [continue]: nothing is thrown and the grid stays as
    it is, cells and dimensions; a record inside is written to its cell.
    The grid built is the one built from the records inside alone, and the
    turns skipped are those of the records outside.  In the grid as it ends,
    every cell holds what the last record inside aimed at it stores, or a
    space, so no skipped record changed a cell; and the cell of every record
    inside holds what the last record with its coordinates stores: all
    records inside are painted. *)
Theorem out_of_bounds_skipped (coords : list (Z * Z)) (chars : list charValue) (w h : Z) :
  length coords = length chars -> gridSize coords = Ok (w, h) ->
  (forall (g : grid) xy ch, rect h w g ->
      (fst xy < 0 \/ snd xy < 0 \/ h <= snd xy \/ w <= fst xy ->
       outOfBounds g xy = true /\ place g xy ch = g)
      /\ (0 <= fst xy < w /\ 0 <= snd xy < h ->
          outOfBounds g xy = false /\ rect h w (place g xy ch)
          /\ cellAt (place g xy ch) (snd xy) (fst xy) = Some (printable ch)))
  /\ exists g,
       buildGrid coords chars = Ok g
       /\ buildAndRenderGrid coords chars = Ok (printRows g (length g))
       /\ rect h w g
       /\ g = placeAll (blankGrid h w)
                (map fst (keepInside w h (zip coords chars)))
                (map snd (keepInside w h (zip coords chars)))
       /\ skipped (blankGrid h w) coords chars
          = filter (fun xy => inside w h xy = false) coords
       /\ (forall px py, 0 <= px < w -> 0 <= py < h ->
             cellAt g py px
             = match lastCharAt px py
                       (map fst (keepInside w h (zip coords chars)))
                       (map snd (keepInside w h (zip coords chars))) with
               | Some ch => Some (printable ch)
               | None => Some space
               end)
       /\ (forall xy, In xy coords -> 0 <= fst xy < w /\ 0 <= snd xy < h ->
             exists ch, lastCharAt (fst xy) (snd xy) coords chars = Some ch
                        /\ cellAt g (snd xy) (fst xy) = Some (printable ch)).
Proof.
  intros Hlen Hsize.
  destruct (gridSize_inv _ _ _ Hsize) as (_ & _ & _ & _ & _ & _ & Hw & Hh).
  pose proof (rect_blank h w) as Hblank.
  assert (map fst (zip coords chars) = coords /\ map snd (zip coords chars) = chars)
    as [Hfst Hsnd].
  { change (map fst (zip coords chars)) with (fst <$> zip coords chars).
    change (map snd (zip coords chars)) with (snd <$> zip coords chars).
    by rewrite fst_zip, snd_zip by lia. }
  split.
  - intros g xy ch Hg. split.
    + intros Hout. assert (outOfBounds g xy = true) as Hskip.
      { rewrite (outOfBounds_rect h w) by done.
        destruct (inside w h xy) eqn:Hin; [|done].
        apply inside_spec in Hin. lia. }
      split; [done|]. by apply place_outside.
    + intros Hin. apply (inside_spec h w) in Hin. split.
      { rewrite (outOfBounds_rect h w) by done. by rewrite Hin. }
      split; [by apply (place_rect h w)|].
      pose proof Hin as Hin'. apply inside_spec in Hin'.
      rewrite (place_cell h w) by (done || lia).
      by rewrite Hin, !Z.eqb_refl.
  - exists (placeAll (blankGrid h w) coords chars).
    split; [by apply buildGrid_ok|].
    split; [apply buildAndRenderGrid_ok;
            [done|by eapply gridSize_nonempty|by apply buildGrid_ok]|].
    split; [apply placeAll_rect; [done|apply Hblank; lia]|].
    split.
    + rewrite <- (placeAll_keepInside h w) by (done || apply Hblank; lia).
      by rewrite Hfst, Hsnd.
    + split; [apply (skipped_rect h w); [done|apply Hblank; lia|done]|]. split.
      * intros px py Hpx Hpy.
        rewrite (lastCharAt_keepInside w h) by done. rewrite Hfst, Hsnd.
        rewrite (placeAll_cell h w) by (done || lia || apply Hblank; lia).
        destruct (lastCharAt px py coords chars); [done|].
        apply cellAt_blank; lia.
      * intros xy Hin [Hx Hy].
        destruct (lastCharAt_hit coords chars xy Hlen Hin) as [ch Hch].
        exists ch. split; [done|].
        rewrite (placeAll_cell h w) by (done || lia || apply Hblank; lia).
        by rewrite Hch.
Qed.

Lemma out_of_bounds_skipped_witness :
  place (blankGrid 2 2) (-1, 0) (Arr [lit "W"]) = blankGrid 2 2
  /\ exists g,
       buildGrid exampleCoords exampleChars = Ok g /\ rect 2 2 g
       /\ skipped (blankGrid 2 2) exampleCoords exampleChars = [(-1, 0)]
       /\ cellAt g 0 0 = Some (lit "X") /\ cellAt g 1 1 = Some (lit "a,b")
       /\ cellAt g 0 1 = Some space /\ cellAt g 1 0 = Some space.
Proof.
  destruct (out_of_bounds_skipped exampleCoords exampleChars 2 2)
    as (Hstep & g & Hg & _ & Hrect & _ & Hskip & Hcell & _).
  - reflexivity.
  - reflexivity.
  - split.
    + apply (Hstep (blankGrid 2 2) (-1, 0)); [apply rect_blank; lia|].
      left. simpl. lia.
    + exists g. split; [exact Hg|]. split; [exact Hrect|]. split; [exact Hskip|].
      split; [apply (Hcell 0 0); lia|]. split; [apply (Hcell 1 1); lia|].
      split; [apply (Hcell 1 0); lia|apply (Hcell 0 1); lia].
Defined.

(** C9: when several records aim at one cell, the cell ends with what the
    last of them stores: its character in the plain-text decoder, the
    string [String(ch)] of its character in the row-text one (a space if
    that string is empty).  A cell no record aims at keeps its space. *)
Theorem last_write_wins (cs : list character) (coords : list (Z * Z))
    (chars : list charValue) (w h : Z) :
  cs <> [] -> length coords = length chars -> gridSize coords = Ok (w, h) ->
  (exists b g,
      computeBounds cs = Some b /\ rasterize cs = Ok g
      /\ forall px py, minX b <= px <= maxX b -> minY b <= py <= maxY b ->
           cellAt g (py - minY b) (px - minX b)
           = match lastCharacterAt px py cs with
             | Some c => Some (char c)
             | None => Some space
             end)
  /\ (exists g,
         buildGrid coords chars = Ok g
         /\ forall px py, 0 <= px < w -> 0 <= py < h ->
              cellAt g py px
              = match lastCharAt px py coords chars with
                | Some ch => Some (printable ch)
                | None => Some space
                end)
  /\ (forall ch, String_ ch <> [] -> printable ch = String_ ch).
Proof.
  intros Hcs Hlen Hsize. split; [|split].
  - destruct (rasterize_ok cs Hcs) as (b & g & Hb & Hg & _ & Hcell).
    exists b, g. split; [done|]. split; [done|]. done.
  - destruct (gridSize_inv _ _ _ Hsize) as (_ & _ & _ & _ & _ & _ & Hw & Hh).
    exists (placeAll (blankGrid h w) coords chars).
    split; [by apply buildGrid_ok|].
    intros px py Hpx Hpy.
    rewrite (placeAll_cell h w) by (done || lia || apply rect_blank; lia).
    destruct (lastCharAt px py coords chars); [done|].
    apply cellAt_blank; lia.
  - apply printable_whole.
Qed.

Lemma last_write_wins_witness :
  (exists g, rasterize exampleCharacters = Ok g /\ cellAt g 2 2 = Some (lit "Z"))
  /\ (exists g, buildGrid exampleCoords exampleChars = Ok g
                /\ cellAt g 1 1 = Some (lit "a,b") /\ cellAt g 0 0 = Some (lit "X")
                /\ cellAt g 1 0 = Some space).
Proof.
  destruct (last_write_wins exampleCharacters exampleCoords exampleChars 2 2)
    as ((b & g1 & Hb & Hg1 & Hcell1) & (g2 & Hg2 & Hcell2) & _).
  - discriminate.
  - reflexivity.
  - reflexivity.
  - split.
    + exists g1. split; [exact Hg1|].
      injection Hb as <-. apply (Hcell1 3 4); simpl; lia.
    + exists g2. split; [exact Hg2|].
      split; [apply (Hcell2 1 1); lia|]. split; [apply (Hcell2 0 0); lia|].
      apply (Hcell2 0 1); lia.
Defined.


End Claims.


(** ** The matcher *)

Section Matching.

Implicit Types (r : regex) (s t : jsstring).

Lemma greedy_Some {A} (f : nat -> option A) (lo n : nat) (v : A) :
  greedy f lo n = Some v -> exists k, (lo <= k <= n)%nat /\ f k = Some v.
Proof.
  induction n as [|n IH]; simpl.
  - destruct (Nat.ltb_spec 0 lo); [done|]. destruct (f 0%nat) eqn:Hf; [|done].
    intros [= <-]. exists 0%nat. split; [lia|done].
  - destruct (Nat.ltb_spec (S n) lo); [done|]. destruct (f (S n)) eqn:Hf.
    + intros [= <-]. exists (S n). split; [lia|done].
    + intros Hrec. destruct (IH Hrec) as (k & Hk & Hfk). exists k. split; [lia|done].
Qed.

Lemma greedy_None {A} (f : nat -> option A) (lo n : nat) :
  greedy f lo n = None -> forall k, (lo <= k <= n)%nat -> f k = None.
Proof.
  induction n as [|n IH]; simpl.
  - destruct (Nat.ltb_spec 0 lo); [intros; lia|]. destruct (f 0%nat) eqn:Hf; [done|].
    intros _ k Hk. by replace k with 0%nat by lia.
  - destruct (Nat.ltb_spec (S n) lo); [intros; lia|]. destruct (f (S n)) eqn:Hf; [done|].
    intros Hrec k Hk. destruct (decide (k = S n)) as [->|Hne]; [done|].
    apply IH; [done|lia].
Qed.

Lemma span_take (p : code_unit -> bool) s (k : nat) :
  (k <= span p s)%nat ->
  Forall (fun c => p c = true) (take k s) /\ length (take k s) = k.
Proof.
  revert k. induction s as [|c s IH]; intros k Hk; simpl in *.
  - replace k with 0%nat by lia. split; [constructor|done].
  - destruct k as [|k]; [split; [constructor|done]|].
    destruct (p c) eqn:Hc; [|lia]. destruct (IH k) as [Hall Hlen]; [lia|].
    simpl. split; [by constructor|by rewrite Hlen].
Qed.

Lemma exec_unfold it r s :
  exec (it :: r) s
  = greedy (fun n => match exec r (drop n s) with
                     | Some caps => Some (if it_capture it then take n s :: caps else caps)
                     | None => None
                     end)
      (match it_quant it with Many0 => 0 | _ => 1 end)%nat
      (match it_quant it with
       | Once => Nat.min 1 (span (cls_test (it_cls it)) s)
       | _ => span (cls_test (it_cls it)) s
       end).
Proof. reflexivity. Qed.

(** The window of repetitions the matcher tries for an item. *)
Lemma exec_cons it r s caps :
  exec (it :: r) s = Some caps ->
  exists k caps',
    (k <= span (cls_test (it_cls it)) s)%nat
    /\ match it_quant it with
       | Once => k = 1%nat
       | Many0 => True
       | Many1 => (1 <= k)%nat
       end
    /\ exec r (drop k s) = Some caps'
    /\ caps = if it_capture it then take k s :: caps' else caps'.
Proof.
  rewrite exec_unfold. destruct (it_quant it); intros Hg;
    apply greedy_Some in Hg as (k & Hk & Hf);
    (destruct (exec r (drop k s)) as [caps'|] eqn:Hex; [|done]);
    injection Hf as <-; exists k, caps';
    (split; [lia|]); (split; [lia || done|]); done.
Qed.

(** Every group holds code units of its class, within its quantifier. *)
Lemma exec_captures r s caps :
  exec r s = Some caps -> Forall2 captureOf (captured r) caps.
Proof.
  revert s caps. induction r as [|it r IH]; intros s caps.
  - simpl. intros [= <-]. constructor.
  - intros Hex. apply exec_cons in Hex as (k & caps' & Hk & Hq & Hrest & ->).
    specialize (IH _ _ Hrest). unfold captured in *. rewrite filter_cons.
    destruct (it_capture it) eqn:Hcap.
    + destruct (decide (true = true)); [|done]. constructor; [|done].
      destruct (span_take _ _ _ Hk) as [Hall Hlen]. split; [done|].
      rewrite Hlen. destruct (it_quant it); done.
    + destruct (decide (false = true)); done.
Qed.

Lemma js_match_Some r s caps :
  js_match r s = Some caps -> exists n, exec r (drop n s) = Some caps.
Proof.
  induction s as [|c s IH]; simpl.
  - destruct (exec r []) eqn:Hex; [|done]. intros [= <-]. by exists 0%nat.
  - destruct (exec r (c :: s)) eqn:Hex.
    + intros [= <-]. by exists 0%nat.
    + intros Hrec. destruct (IH Hrec) as [n Hn]. by exists (S n).
Qed.

Lemma js_match_None r s :
  js_match r s = None -> forall n, exec r (drop n s) = None.
Proof.
  induction s as [|c s IH]; simpl.
  - destruct (exec r []) eqn:Hex; [done|]. intros _ n. by rewrite drop_nil.
  - destruct (exec r (c :: s)) eqn:Hex; [done|].
    intros Hrec [|n]; [done|]. simpl. by apply IH.
Qed.

Lemma js_match_captures r s caps :
  js_match r s = Some caps -> Forall2 captureOf (captured r) caps.
Proof. intros Hm. apply js_match_Some in Hm as [n Hn]. by eapply exec_captures. Qed.

Lemma nonws_is_dot (c : code_unit) :
  cls_test NonWS c = true -> cls_test Dot c = true.
Proof.
  simpl. unfold isSpace. destruct (isWhiteSpace c), (isLineTerminator c); done.
Qed.

(** Where [\S+] followed by [tail] matches, [.] followed by [tail] matches
    at the last code unit of the run. *)
Lemma dot_covers_nonws (tail : regex) (capture : bool) s :
  js_match (Item Dot Once capture :: tail) s = None ->
  js_match (Item NonWS Many1 capture :: tail) s = None.
Proof.
  intros Hdot. destruct (js_match (Item NonWS Many1 capture :: tail) s) as [caps|] eqn:Hm;
    [exfalso|done].
  apply js_match_Some in Hm as [n Hn].
  apply exec_cons in Hn as (k & caps' & Hk & Hq & Hrest & _). simpl in Hk, Hq.
  pose proof (js_match_None _ _ Hdot (n + (k - 1))%nat) as Hno.
  rewrite <- drop_drop in Hno.
  destruct (span_take _ _ _ Hk) as [Hall Hlen].
  destruct (drop (k - 1) (drop n s)) as [|c t] eqn:Hd.
  { assert (length (drop (k - 1) (drop n s)) = 0%nat) as Hz by (by rewrite Hd).
    rewrite length_drop in Hz. rewrite length_take in Hlen. lia. }
  assert (drop k (drop n s) = t) as Ht.
  { replace k with ((k - 1) + 1)%nat by lia. rewrite <- drop_drop, Hd. done. }
  assert (cls_test NonWS c = true) as Hc.
  { assert (take k (drop n s) !! (k - 1)%nat = Some c) as Hlk.
    { rewrite lookup_take_lt by lia. rewrite <- (Nat.add_0_r (k - 1)).
      rewrite <- lookup_drop, Hd. done. }
    exact (proj1 (Forall_lookup _ _) Hall _ _ Hlk). }
  apply nonws_is_dot in Hc. simpl in Hno, Hc. rewrite Hc in Hno. simpl in Hno.
  rewrite drop_0 in Hno. rewrite <- Ht, Hrest in Hno. done.
Qed.

End Matching.

(** ** The plain-text decoder: what the patterns give *)

Section PlainTextRecords.

Import PlainText.

Lemma third_pattern_unreachable_holds (line : jsstring) :
  parseLine patterns line = parseLine (take 2 patterns) line.
Proof.
  unfold patterns, cap, skip. cbn [take parseLine].
  destruct (js_match (Item Dot Once true :: Item WS _ _ :: _) line) as [caps|] eqn:H1;
    [done|].
  destruct (js_match (Item Dot Once true :: Item (Chr _) _ _ :: _) line) as [caps|] eqn:H2;
    [done|].
  by rewrite (dot_covers_nonws _ _ _ H1).
Qed.

(** X2: the third pattern never decides a line.  Whenever [(\S+)\s+(\d+)\s+(\d+)]
    matches, [(.)\s+(\d+)\s+(\d+)] matches too and comes first, so parsing
    with the three patterns is parsing with the first two. *)
Theorem third_pattern_unreachable (line : jsstring) :
  parseLine patterns line = parseLine (take 2 patterns) line.
Proof. apply third_pattern_unreachable_holds. Qed.

Lemma parseLine_record (line : jsstring) (c : character) :
  parseLine patterns line = Some c ->
  exists u xs ys,
    char c = [u] /\ isLineTerminator u = false
    /\ x c = parseInt10 xs /\ Forall (fun d => isDigit d = true) xs
    /\ y c = parseInt10 ys /\ Forall (fun d => isDigit d = true) ys.
Proof.
  rewrite third_pattern_unreachable_holds. unfold patterns, cap, skip. cbn [take parseLine].
  assert (forall caps, Forall2 captureOf
            [Item Dot Once true; Item Digit Many1 true; Item Digit Many1 true] caps ->
          exists u xs ys, caps = [[u]; xs; ys] /\ isLineTerminator u = false
            /\ Forall (fun d => isDigit d = true) xs
            /\ Forall (fun d => isDigit d = true) ys) as Hshape.
  { intros caps Hcaps.
    inversion Hcaps as [|? g1 ? l1 [Hd1 Hn1] Hcaps1]; subst.
    inversion Hcaps1 as [|? xs ? l2 [Hd2 _] Hcaps2]; subst.
    inversion Hcaps2 as [|? ys ? l3 [Hd3 _] Hcaps3]; subst.
    inversion Hcaps3; subst. simpl in *.
    destruct g1 as [|u [|? ?]]; try done.
    inversion Hd1 as [|? ? Hu _]; subst.
    exists u, xs, ys. split; [done|]. split; [by apply negb_true_iff in Hu|]. done. }
  destruct (js_match (Item Dot Once true :: Item WS _ _ :: _) line) as [caps|] eqn:H1.
  - apply js_match_captures, Hshape in H1 as (u & xs & ys & -> & Hu & Hxs & Hys).
    intros [= <-]. exists u, xs, ys. done.
  - destruct (js_match (Item Dot Once true :: Item (Chr _) _ _ :: _) line)
      as [caps|] eqn:H2; [|done].
    apply js_match_captures, Hshape in H2 as (u & xs & ys & -> & Hu & Hxs & Hys).
    intros [= <-]. exists u, xs, ys. done.
Qed.

Lemma parsed_records_wellformed_holds (content : jsstring) (c : character) :
  In c (parseCharacters content) ->
  (exists u, char c = [u] /\ isLineTerminator u = false) /\ 0 <= x c /\ 0 <= y c.
Proof.
  intros Hin. apply list_elem_of_In in Hin. unfold parseCharacters in Hin.
  apply list_elem_of_omap in Hin as (line & _ & Hline).
  apply parseLine_record in Hline as (u & xs & ys & Hc & Hu & -> & Hxs & -> & Hys).
  split; [by exists u|]. split; by apply parseInt10_nonneg.
Qed.

(** X1: every record parsed from a text has a character of exactly one code
    unit, which is no line terminator, and coordinates that are not
    negative. *)
Theorem parsed_records_wellformed (content : jsstring) (c : character) :
  In c (parseCharacters content) ->
  (exists u, char c = [u] /\ isLineTerminator u = false) /\ 0 <= x c /\ 0 <= y c.
Proof. apply parsed_records_wellformed_holds. Qed.

Lemma parsed_records_wellformed_witness :
  let c := {| char := lit "C"; x := 1; y := 2 |} in
  In c (parseCharacters (lit "ABC 1 2")) /\ 0 <= x c /\ 0 <= y c.
Proof.
  assert (In {| char := lit "C"; x := 1; y := 2 |} (parseCharacters (lit "ABC 1 2")))
    as Hin by (left; reflexivity).
  split; [exact Hin|].
  exact (proj2 (parsed_records_wellformed (lit "ABC 1 2") _ Hin)).
Defined.

Lemma split_nonempty (sep : code_unit) (s : jsstring) : split sep s <> [].
Proof.
  induction s as [|c s IH]; simpl; [done|].
  destruct (c =? sep)%N; [done|]. by destruct (split sep s).
Qed.

Lemma split_app (sep : code_unit) (a b : jsstring) :
  split sep (a ++ sep :: b) = split sep a ++ split sep b.
Proof.
  induction a as [|c a IH]; simpl.
  - by rewrite N.eqb_refl.
  - destruct (c =? sep)%N; [by rewrite IH|].
    rewrite IH. pose proof (split_nonempty sep a).
    by destruct (split sep a).
Qed.

(** X3: the records of two texts put together with a newline are the
    records of the first followed by those of the second. *)
Theorem parse_concatenation (a b : jsstring) :
  parseCharacters (a ++ newline :: b) = parseCharacters a ++ parseCharacters b.
Proof.
  unfold parseCharacters. fold newline.
  by rewrite split_app, map_app, filter_app, omap_app.
Qed.

End PlainTextRecords.

(** ** The plain-text decoder: the grid as a whole *)

Section PlainTextOutput.

Import PlainText.

Implicit Types (cs : list character) (b : Bounds).

Lemma extend_shift dx dy cs b :
  fold_left extend (map (shift dx dy) cs)
    (Some {| minX := minX b + dx; maxX := maxX b + dx;
             minY := minY b + dy; maxY := maxY b + dy |})
  = (fun b' => {| minX := minX b' + dx; maxX := maxX b' + dx;
                  minY := minY b' + dy; maxY := maxY b' + dy |})
      <$> fold_left extend cs (Some b).
Proof.
  revert b. induction cs as [|c cs IH]; intros b; [done|]. simpl.
  rewrite !Z.add_min_distr_r, !Z.add_max_distr_r.
  apply (IH {| minX := Z.min (minX b) (x c); maxX := Z.max (maxX b) (x c);
               minY := Z.min (minY b) (y c); maxY := Z.max (maxY b) (y c) |}).
Qed.

Lemma computeBounds_shift dx dy cs :
  computeBounds (map (shift dx dy) cs)
  = (fun b' => {| minX := minX b' + dx; maxX := maxX b' + dx;
                  minY := minY b' + dy; maxY := maxY b' + dy |})
      <$> computeBounds cs.
Proof.
  unfold computeBounds. destruct cs as [|c cs]; [done|]. simpl.
  apply (extend_shift dx dy cs {| minX := x c; maxX := x c; minY := y c; maxY := y c |}).
Qed.

Lemma forEach_shift dx dy b cs (g : grid) :
  forEach {| minX := minX b + dx; maxX := maxX b + dx;
             minY := minY b + dy; maxY := maxY b + dy |} g (map (shift dx dy) cs)
  = forEach b g cs.
Proof.
  revert g. induction cs as [|c cs IH]; intros g; [done|]. simpl.
  unfold write. simpl.
  replace (y c + dy - (minY b + dy)) with (y c - minY b) by lia.
  replace (x c + dx - (minX b + dx)) with (x c - minX b) by lia.
  destruct (array_get g (y c - minY b)); simpl; [apply IH|done].
Qed.

(** X4: only the positions of the records relative to each other count:
    moving every record by the same offset gives the same grid. *)
Theorem rasterize_translation_invariant (dx dy : Z) cs :
  rasterize (map (shift dx dy) cs) = rasterize cs.
Proof.
  unfold rasterize. rewrite length_map, computeBounds_shift.
  destruct (length cs =? 0)%nat; [done|].
  destruct (computeBounds cs) as [b|]; simpl; [|done].
  replace (maxY b + dy - (minY b + dy) + 1) with (maxY b - minY b + 1) by lia.
  replace (maxX b + dx - (minX b + dx) + 1) with (maxX b - minX b + 1) by lia.
  apply forEach_shift.
Qed.

(** A grid is its cells. *)
Lemma grid_tabulate h w (g : grid) (f : Z -> Z -> jsstring) :
  rect h w g -> 0 <= w ->
  (forall r c, 0 <= r < h -> 0 <= c < w -> cellAt g r c = Some (f r c)) ->
  g = tabulate h w f.
Proof.
  intros [Hlen Hall] Hw Hcell. unfold tabulate.
  apply (list_eq_same_length _ _ (Z.to_nat h)); [by rewrite length_map, length_seqZ|lia|].
  intros i row row' Hi Hrow Hrow'.
  change (map ?k ?l) with (k <$> l) in Hrow'.
  rewrite list_lookup_fmap, lookup_seqZ_lt in Hrow' by lia. simpl in Hrow'.
  injection Hrow' as <-.
  pose proof (proj1 (Forall_lookup _ _) Hall _ _ Hrow) as Hroww. simpl in Hroww.
  apply (list_eq_same_length _ _ (Z.to_nat w)); [by rewrite length_map, length_seqZ|lia|].
  intros j v v' Hj Hv Hv'.
  change (map ?k ?l) with (k <$> l) in Hv'.
  rewrite list_lookup_fmap, lookup_seqZ_lt in Hv' by lia. simpl in Hv'.
  injection Hv' as <-.
  specialize (Hcell (Z.of_nat i) (Z.of_nat j)). unfold cellAt in Hcell.
  rewrite array_get_nat, Nat2Z.id, Hrow, array_get_nat, Nat2Z.id, Hv in Hcell by lia.
  rewrite Z.add_0_l in *. apply (inj Some). apply Hcell; lia.
Qed.

Lemma plain_grid_contents_holds cs :
  cs <> [] ->
  exists b,
    computeBounds cs = Some b
    /\ rasterize cs
       = Ok (tabulate (maxY b - minY b + 1) (maxX b - minX b + 1)
               (fun r c => shownAt cs (minX b + c) (minY b + r))).
Proof.
  intros Hne. destruct (rasterize_ok cs Hne) as (b & g & Hb & Hg & Hrect & Hcell).
  destruct (computeBounds_extremes cs Hne) as (b' & Hb' & Hall & _).
  assert (b' = b) as -> by congruence.
  assert (minX b <= maxX b /\ minY b <= maxY b) as [Hwx Hwy].
  { destruct cs as [|c cs']; [done|]. inversion Hall as [|? ? Hc _]; subst.
    unfold within in Hc. lia. }
  assert (g = tabulate (maxY b - minY b + 1) (maxX b - minX b + 1)
                (fun r c => shownAt cs (minX b + c) (minY b + r))) as Hgrid.
  { apply grid_tabulate; [done|lia|]. intros r c Hr Hc.
    specialize (Hcell (minX b + c) (minY b + r)).
    replace (minY b + r - minY b) with r in Hcell by lia.
    replace (minX b + c - minX b) with c in Hcell by lia.
    rewrite Hcell by lia. unfold shownAt.
    by destruct (lastCharacterAt (minX b + c) (minY b + r) cs). }
  exists b. split; [done|]. by rewrite Hg, Hgrid.
Qed.

(** What is printed for a grid given cell by cell. *)
Lemma decode_tabulate (content : jsstring) (h w : Z) (f : Z -> Z -> jsstring) :
  rasterize (parseCharacters content) = Ok (tabulate h w f) ->
  decodeSecretMessage content
  = Ok (lit "Secret Message:"
          :: map (fun r => join [] (map (fun c => f r c) (seqZ 0 w))) (seqZ 0 h)).
Proof.
  intros Hg. unfold decodeSecretMessage. rewrite Hg. simpl.
  unfold tabulate. by rewrite map_map.
Qed.

(** X5: the grid of a record set that is not empty and feasible (coordinates
    from 0 to below the largest length of an array, where the digit runs
    parse exactly), cell by cell: row [r], column [c] shows the character of
    the last record at [(minX + c, minY + r)], or a space where there is
    none; for a text with these records the decoder prints the heading and
    then the rows from the top, row 0 first. *)
Theorem plain_grid_contents cs :
  cs <> [] -> Forall feasible cs ->
  exists b,
    computeBounds cs = Some b
    /\ rasterize cs
       = Ok (tabulate (maxY b - minY b + 1) (maxX b - minX b + 1)
               (fun r c => shownAt cs (minX b + c) (minY b + r)))
    /\ forall content, parseCharacters content = cs ->
         decodeSecretMessage content
         = Ok (lit "Secret Message:"
                 :: map (fun r => join [] (map (fun c => shownAt cs (minX b + c) (minY b + r))
                                             (seqZ 0 (maxX b - minX b + 1))))
                      (seqZ 0 (maxY b - minY b + 1))).
Proof.
  intros Hne _. destruct (plain_grid_contents_holds cs Hne) as (b & Hb & Hg).
  exists b. split; [done|]. split; [done|].
  intros content Hcontent. apply decode_tabulate. by rewrite Hcontent.
Qed.

Lemma plain_grid_contents_witness :
  exists b, computeBounds exampleCharacters = Some b
    /\ rasterize exampleCharacters
       = Ok (tabulate (maxY b - minY b + 1) (maxX b - minX b + 1)
               (fun r c => shownAt exampleCharacters (minX b + c) (minY b + r))).
Proof.
  destruct (plain_grid_contents exampleCharacters) as (b & Hb & Hg & _).
  - discriminate.
  - repeat constructor; simpl; unfold maxArrayLength; lia.
  - exists b. split; [exact Hb|exact Hg].
Defined.

Lemma lastCharacterAt_In px py cs c :
  lastCharacterAt px py cs = Some c -> In c cs.
Proof.
  induction cs as [|c' cs IH]; simpl; [done|].
  destruct (lastCharacterAt px py cs) as [c''|].
  - intros [= ->]. right. by apply IH.
  - destruct ((x c' =? px) && (y c' =? py)); [|done]. intros [= ->]. by left.
Qed.

Lemma length_join_units (cells : list jsstring) :
  Forall (fun cell => length cell = 1%nat) cells ->
  length (join [] cells) = length cells.
Proof.
  induction 1 as [|cell cells Hcell Hcells IH]; [done|].
  destruct cells as [|cell' cells'].
  - simpl. by rewrite Hcell.
  - change (join [] (cell :: cell' :: cells')) with (cell ++ [] ++ join [] (cell' :: cells')).
    rewrite !length_app, IH, Hcell. done.
Qed.

(** X6: for a text with a record, all records feasible (coordinates below
    the largest length of an array, where the digit runs parse exactly), the
    decoder prints the heading and then maxY-minY+1 lines of exactly
    maxX-minX+1 code units each: the output is a rectangle. *)
Theorem plain_lines_rectangular (content : jsstring) :
  parseCharacters content <> [] -> Forall feasible (parseCharacters content) ->
  exists b lines,
    computeBounds (parseCharacters content) = Some b
    /\ decodeSecretMessage content = Ok (lit "Secret Message:" :: lines)
    /\ Z.of_nat (length lines) = maxY b - minY b + 1
    /\ Forall (fun line => Z.of_nat (length line) = maxX b - minX b + 1) lines.
Proof.
  intros Hne _. destruct (plain_grid_contents_holds _ Hne) as (b & Hb & Hg).
  pose proof (decode_tabulate content _ _ _ Hg) as Hout.
  destruct (computeBounds_extremes _ Hne) as (b' & Hb' & Hall & _).
  assert (b' = b) as -> by congruence.
  assert (minX b <= maxX b /\ minY b <= maxY b) as [Hwx Hwy].
  { destruct (parseCharacters content) as [|c cs']; [done|].
    inversion Hall as [|? ? Hc _]; subst. unfold within in Hc. lia. }
  eexists b, _. split; [done|]. split; [exact Hout|].
  split; [rewrite length_map, length_seqZ; lia|].
  apply List.Forall_forall. intros line Hline.
  apply List.in_map_iff in Hline as (r & <- & _).
  rewrite length_join_units.
  - rewrite length_map, length_seqZ. lia.
  - apply List.Forall_forall. intros cell Hcell.
    apply List.in_map_iff in Hcell as (c & <- & _). unfold shownAt.
    destruct (lastCharacterAt _ _ _) as [rec|] eqn:Hlast; [|done].
    apply lastCharacterAt_In in Hlast.
    destruct (parsed_records_wellformed_holds _ _ Hlast) as [(u & -> & _) _]. done.
Qed.

Lemma plain_lines_rectangular_witness :
  exists b lines,
    computeBounds (parseCharacters (join [newline] exampleLines)) = Some b
    /\ decodeSecretMessage (join [newline] exampleLines) = Ok (lit "Secret Message:" :: lines)
    /\ Forall (fun line => Z.of_nat (length line) = maxX b - minX b + 1) lines.
Proof.
  destruct (plain_lines_rectangular (join [newline] exampleLines))
    as (b & lines & Hb & Hout & _ & Hall).
  - discriminate.
  - apply List.Forall_forall. intros c Hc. vm_compute in Hc.
    destruct Hc as [<-|[<-|[<-|[]]]]; unfold feasible, maxArrayLength; simpl; lia.
  - exists b, lines. split; [exact Hb|]. split; [exact Hout|exact Hall].
Defined.

End PlainTextOutput.

(** ** The address of the text export *)

Section DocUrl.

Import PlainTextFetch.

Implicit Types (s t url id rest : jsstring).

#[local] Arguments docMarker : simpl never.

Lemma isPrefix_app t s : isPrefix t (t ++ s) = true.
Proof. induction t as [|c t IH]; simpl; [done|]. by rewrite N.eqb_refl, IH. Qed.

Lemma isPrefix_inv t s : isPrefix t s = true -> s = t ++ drop (length t) s.
Proof.
  revert s. induction t as [|c t IH]; intros s; simpl; [done|].
  destruct s as [|d s]; [done|]. intros Hp. apply andb_true_iff in Hp as [Hc Ht].
  apply N.eqb_eq in Hc as ->. simpl. by rewrite <- (IH s Ht).
Qed.

Lemma includes_prefix s t : isPrefix t s = true -> includes s t = true.
Proof. intros Hp. destruct s; simpl; by rewrite Hp. Qed.

Lemma includes_app t pre s : includes (pre ++ t ++ s) t = true.
Proof.
  induction pre as [|c pre IH]; simpl.
  - apply includes_prefix, isPrefix_app.
  - by rewrite IH, orb_true_r.
Qed.

Lemma includes_inv s t : includes s t = true -> exists pre, s = pre ++ t ++ drop (length t) (drop (length pre) s).
Proof.
  induction s as [|c s IH]; simpl.
  - rewrite orb_false_r. intros Hp. exists []. by apply isPrefix_inv in Hp.
  - intros Hp. apply orb_true_iff in Hp as [Hp|Hp].
    + exists []. by apply isPrefix_inv in Hp.
    + destruct (IH Hp) as [pre Hpre]. exists (c :: pre). simpl. by rewrite <- Hpre.
Qed.

Lemma span_app (p : code_unit -> bool) s t :
  Forall (fun c => p c = true) s -> span p (s ++ t) = (length s + span p t)%nat.
Proof. induction 1 as [|c s Hc _ IH]; simpl; [done|]. by rewrite Hc, IH. Qed.

Lemma span_drop (p : code_unit -> bool) s : span p (drop (span p s) s) = 0%nat.
Proof.
  induction s as [|c s IH]; simpl; [done|].
  destruct (p c) eqn:Hc; simpl; [done|by rewrite Hc].
Qed.

Lemma span_le (p : code_unit -> bool) s : (span p s <= length s)%nat.
Proof. induction s as [|c s IH]; simpl; [done|]. destruct (p c); lia. Qed.

(** The match at the marker: the identifier is all of the run after it. *)
Lemma docIdAt_marker id rest :
  id <> [] -> Forall (fun c => isDocIdChar c = true) id -> span isDocIdChar rest = 0%nat ->
  docIdAt (docMarker ++ id ++ rest) = Some id.
Proof.
  intros Hne Hid Hrest. unfold docIdAt.
  rewrite isPrefix_app, drop_app_length, span_app, Hrest, Nat.add_0_r by done.
  destruct id as [|c id']; [done|]. simpl length. simpl Nat.ltb. cbv iota.
  by rewrite <- (take_app_length (c :: id') rest) at 2.
Qed.

Lemma docIdAt_Some s id :
  docIdAt s = Some id ->
  id <> [] /\ Forall (fun c => isDocIdChar c = true) id
  /\ exists rest, s = docMarker ++ id ++ rest /\ span isDocIdChar rest = 0%nat.
Proof.
  unfold docIdAt. destruct (isPrefix docMarker s) eqn:Hp; [|done].
  apply isPrefix_inv in Hp. set (tl := drop (length docMarker) s) in *.
  destruct (Nat.ltb_spec 0 (span isDocIdChar tl)) as [Hpos|]; [|done].
  intros [= <-]. destruct (span_take isDocIdChar tl (span isDocIdChar tl)) as [Hall Hlen];
    [done|].
  split; [intros Hnil; rewrite Hnil in Hlen; simpl in Hlen; lia|].
  split; [done|]. exists (drop (span isDocIdChar tl) tl).
  split; [by rewrite take_drop|apply span_drop].
Qed.

Lemma matchDocId_Some s id :
  matchDocId s = Some id ->
  id <> [] /\ Forall (fun c => isDocIdChar c = true) id
  /\ exists pre rest, s = pre ++ docMarker ++ id ++ rest /\ span isDocIdChar rest = 0%nat.
Proof.
  induction s as [|c s IH]; simpl.
  - done.
  - destruct (docIdAt (c :: s)) eqn:Hat.
    + intros [= ->]. apply docIdAt_Some in Hat as (? & ? & rest & ? & ?).
      repeat split; try done. by exists [], rest.
    + intros Hrec. destruct (IH Hrec) as (? & ? & pre & rest & -> & ?).
      repeat split; try done. by exists (c :: pre), rest.
Qed.

Lemma matchDocId_None s :
  matchDocId s = None -> forall pre rest, s = pre ++ docMarker ++ rest ->
  span isDocIdChar rest = 0%nat.
Proof.
  induction s as [|c s IH]; cbn [matchDocId].
  - intros _ pre rest Hs. destruct pre; discriminate Hs.
  - destruct (docIdAt (c :: s)) eqn:Hat; [done|]. intros Hrec pre rest Hs.
    destruct pre as [|c' pre].
    + change ([] ++ docMarker ++ rest) with (docMarker ++ rest) in Hs.
      rewrite Hs in Hat. unfold docIdAt in Hat.
      rewrite isPrefix_app, drop_app_length in Hat.
      destruct (Nat.ltb_spec 0 (span isDocIdChar rest)); [done|lia].
    + injection Hs as -> ->. by apply (IH Hrec pre rest).
Qed.

Lemma matchDocId_at s id : docIdAt s = Some id -> matchDocId s = Some id.
Proof. intros Hat. destruct s; cbn [matchDocId]; by rewrite Hat. Qed.

(** Starts at which the marker does not begin are passed over. *)
Lemma matchDocId_skip pre s :
  (forall n, (n < length pre)%nat -> isPrefix docMarker (drop n pre ++ s) = false) ->
  matchDocId (pre ++ s) = matchDocId s.
Proof.
  induction pre as [|c pre IH]; intros Hno; [done|].
  change ((c :: pre) ++ s) with (c :: (pre ++ s)). cbn [matchDocId].
  assert (docIdAt (c :: pre ++ s) = None) as ->.
  { unfold docIdAt. specialize (Hno 0%nat). cbn [drop] in Hno.
    change ((c :: pre) ++ s) with (c :: (pre ++ s)) in Hno.
    rewrite Hno; [done|simpl; lia]. }
  apply IH. intros n Hn. apply (Hno (S n)). simpl. lia.
Qed.

Lemma export_url_of_document_holds (id rest : jsstring) :
  id <> [] -> Forall (fun c => isDocIdChar c = true) id ->
  span isDocIdChar rest = 0%nat ->
  getPlainTextUrl (lit "https://docs.google.com" ++ docMarker ++ id ++ rest)
  = Ok (lit "https://docs.google.com/document/d/" ++ id ++ lit "/export?format=txt").
Proof.
  intros Hne Hid Hrest. unfold getPlainTextUrl.
  rewrite includes_app. unfold extractDocId.
  rewrite matchDocId_skip.
  - by rewrite (matchDocId_at _ _ (docIdAt_marker id rest Hne Hid Hrest)).
  - intros n Hn.
    do 23 (destruct n as [|n]; [reflexivity|]). simpl in Hn. lia.
Qed.

(** X7: for a document address at docs.google.com, with an identifier of
    letters, digits, dashes and underscores followed by anything else (or by
    nothing), the address fetched is the text export of that identifier. *)
Theorem export_url_of_document (id rest : jsstring) :
  id <> [] -> Forall (fun c => isDocIdChar c = true) id ->
  span isDocIdChar rest = 0%nat ->
  getPlainTextUrl (lit "https://docs.google.com" ++ docMarker ++ id ++ rest)
  = Ok (lit "https://docs.google.com/document/d/" ++ id ++ lit "/export?format=txt").
Proof. apply export_url_of_document_holds. Qed.

Lemma export_url_of_document_witness :
  getPlainTextUrl (lit "https://docs.google.com/document/d/1aB-c_9/edit?usp=sharing")
  = Ok (lit "https://docs.google.com/document/d/1aB-c_9/export?format=txt").
Proof.
  apply (export_url_of_document (lit "1aB-c_9") (lit "/edit?usp=sharing")).
  - discriminate.
  - repeat constructor.
  - reflexivity.
Defined.

(** X8: the address is computed once and for all: what [getPlainTextUrl]
    returns is returned unchanged when given to it again. *)
Theorem getPlainTextUrl_idempotent (url fetchUrl : jsstring) :
  getPlainTextUrl url = Ok fetchUrl -> getPlainTextUrl fetchUrl = Ok fetchUrl.
Proof.
  unfold getPlainTextUrl at 1. destruct (includes url docMarker) eqn:Hinc.
  - unfold extractDocId. destruct (matchDocId url) as [id|] eqn:Hm; [|done].
    simpl. intros [= <-].
    apply matchDocId_Some in Hm as (Hne & Hid & _).
    apply (export_url_of_document_holds id (lit "/export?format=txt")); done.
  - intros [= <-]. unfold getPlainTextUrl. by rewrite Hinc.
Qed.

Lemma getPlainTextUrl_idempotent_witness :
  getPlainTextUrl (lit "https://docs.google.com/document/d/1aB-c_9/edit")
  = Ok (lit "https://docs.google.com/document/d/1aB-c_9/export?format=txt")
  /\ getPlainTextUrl (lit "https://docs.google.com/document/d/1aB-c_9/export?format=txt")
     = Ok (lit "https://docs.google.com/document/d/1aB-c_9/export?format=txt").
Proof.
  assert (getPlainTextUrl (lit "https://docs.google.com/document/d/1aB-c_9/edit")
          = Ok (lit "https://docs.google.com/document/d/1aB-c_9/export?format=txt"))
    as Hfirst by reflexivity.
  split; [exact Hfirst|].
  exact (getPlainTextUrl_idempotent _ _ Hfirst).
Defined.

(** X9: an address is rejected exactly when it holds the marker
    "/document/d/" and no occurrence of the marker is followed by a code
    unit of the identifier class; an address without the marker is fetched
    as it is, whatever it looks like. *)
Theorem getPlainTextUrl_rejects (url : jsstring) :
  (getPlainTextUrl url = Err invalidUrl
   <-> includes url docMarker = true
       /\ forall pre rest, url = pre ++ docMarker ++ rest -> span isDocIdChar rest = 0%nat)
  /\ (forall e, getPlainTextUrl url = Err e -> e = invalidUrl)
  /\ (includes url docMarker = false -> getPlainTextUrl url = Ok url).
Proof.
  unfold getPlainTextUrl, extractDocId. split; [|split].
  - destruct (includes url docMarker) eqn:Hinc.
    + destruct (matchDocId url) as [id|] eqn:Hm; simpl.
      * split; [done|]. intros [_ Hno].
        apply matchDocId_Some in Hm as (Hne & Hid & pre & rest & Hurl & _).
        specialize (Hno pre (id ++ rest) Hurl).
        rewrite span_app in Hno by done. destruct id; [done|simpl in Hno; lia].
      * split; [|done]. intros _. split; [done|]. by apply matchDocId_None.
    + split; [done|]. by intros [? _].
  - intros e. destruct (includes url docMarker); [|done].
    destruct (matchDocId url); simpl; [done|]. by intros [= <-].
  - by intros ->.
Qed.

Lemma getPlainTextUrl_rejects_witness :
  getPlainTextUrl (lit "https://docs.google.com/document/d//edit") = Err invalidUrl
  /\ getPlainTextUrl (lit "any text") = Ok (lit "any text").
Proof.
  destruct (getPlainTextUrl_rejects (lit "any text")) as (_ & _ & Hpass).
  split; [reflexivity|]. apply Hpass. reflexivity.
Defined.


End DocUrl.

(** ** Fetching with retries *)

Section Retrying.

Import PlainTextFetch.

Implicit Types (net : nat -> fetched) (url : jsstring).

Lemma retryLoop_succeeds net url maxRetries (k : nat) :
  forall remaining attempt text,
    (forall j, (attempt <= j < attempt + k)%nat -> attemptFails net j) ->
    attemptOnce (net (attempt + k)%nat) = Ok text ->
    (k < remaining)%nat -> (attempt + remaining = maxRetries + 1)%nat ->
    snd (retryLoop net url maxRetries remaining attempt) = Ok (Some text)
    /\ fetches (fst (retryLoop net url maxRetries remaining attempt)) = replicate (S k) url
    /\ delays (fst (retryLoop net url maxRetries remaining attempt))
       = map (fun i => 1000 * i) (seqZ (Z.of_nat attempt) (Z.of_nat k)).
Proof.
  induction k as [|k IH]; intros remaining attempt text Hfail Hok Hrem Hsum.
  - destruct remaining as [|remaining]; [lia|]. simpl.
    rewrite Nat.add_0_r in Hok. rewrite Hok. done.
  - destruct remaining as [|remaining]; [lia|]. simpl.
    destruct (Hfail attempt) as [e He]; [lia|]. rewrite He.
    destruct (Nat.eqb_spec attempt maxRetries); [lia|].
    destruct (IH remaining (S attempt) text) as (Hres & Hf & Hd); [| |lia|lia|].
    { intros j Hj. apply Hfail. lia. }
    { by replace (S attempt + k)%nat with (attempt + S k)%nat by lia. }
    simpl. split; [done|]. split; [by rewrite Hf|].
    rewrite Hd, (seqZ_cons _ (Z.of_nat (S k))) by lia. simpl.
    by replace (Z.succ (Z.of_nat attempt)) with (Z.of_nat (S attempt)) by lia;
      replace (Z.pred (Z.of_nat (S k))) with (Z.of_nat k) by lia.
Qed.

Lemma retryLoop_exhausted net url maxRetries (remaining : nat) :
  forall attempt e,
    (forall j, (attempt <= j <= maxRetries)%nat -> attemptFails net j) ->
    attemptOnce (net maxRetries) = Err e ->
    (attempt + remaining = maxRetries + 1)%nat -> (1 <= remaining)%nat ->
    snd (retryLoop net url maxRetries remaining attempt) = Err e
    /\ fetches (fst (retryLoop net url maxRetries remaining attempt))
       = replicate remaining url
    /\ delays (fst (retryLoop net url maxRetries remaining attempt))
       = map (fun i => 1000 * i) (seqZ (Z.of_nat attempt) (Z.of_nat remaining - 1)).
Proof.
  induction remaining as [|remaining IH]; intros attempt e Hfail Hlast Hsum Hrem; [lia|].
  simpl. destruct (Hfail attempt) as [e' He']; [lia|]. rewrite He'.
  destruct (Nat.eqb_spec attempt maxRetries) as [->|Hne].
  - assert (remaining = 0)%nat as -> by lia. simpl.
    split; [congruence|]. done.
  - destruct (IH (S attempt) e) as (Hres & Hf & Hd); [|done|lia|lia|].
    { intros j Hj. apply Hfail. lia. }
    simpl. split; [done|]. split; [by rewrite Hf|].
    rewrite Hd, (seqZ_cons _ (Z.of_nat (S remaining) - 1)) by lia. simpl.
    by replace (Z.succ (Z.of_nat attempt)) with (Z.of_nat (S attempt)) by lia;
      replace (Z.pred (Z.of_nat (S remaining) - 1)) with (Z.of_nat remaining - 1) by lia.
Qed.

(** X10: when the call number [n] is the first that succeeds and [n] is
    within the retries, its text is returned after [n] calls of [fetch], with
    the delays 1000, 2000, ..., 1000 (n-1) between them. *)
Theorem fetchWithRetry_first_success net url (maxRetries n : nat) (text : jsstring) :
  (1 <= n <= maxRetries)%nat ->
  (forall j, (1 <= j < n)%nat -> attemptFails net j) ->
  attemptOnce (net n) = Ok text ->
  snd (fetchWithRetry net url maxRetries) = Ok (Some text)
  /\ fetches (fst (fetchWithRetry net url maxRetries)) = replicate n url
  /\ delays (fst (fetchWithRetry net url maxRetries))
     = map (fun i => 1000 * i) (seqZ 1 (Z.of_nat n - 1)).
Proof.
  intros Hn Hfail Hok. unfold fetchWithRetry.
  destruct (retryLoop_succeeds net url maxRetries (n - 1) maxRetries 1 text)
    as (Hres & Hf & Hd); [| |lia|lia|].
  { intros j Hj. apply Hfail. lia. }
  { by replace (1 + (n - 1))%nat with n by lia. }
  split; [done|]. split; [by replace n with (S (n - 1)) by lia|].
  rewrite Hd. by replace (Z.of_nat (n - 1)) with (Z.of_nat n - 1) by lia.
Qed.

Lemma fetchWithRetry_first_success_witness :
  let net := fun j => if (j <? 3)%nat then Response false 503 (Ok []) else Response true 200 (Ok (lit "A 0 0")) in
  snd (fetchWithRetry net (lit "u") 3) = Ok (Some (lit "A 0 0"))
  /\ delays (fst (fetchWithRetry net (lit "u") 3)) = [1000; 2000].
Proof.
  intros net.
  destruct (fetchWithRetry_first_success net (lit "u") 3 3 (lit "A 0 0")) as (Hres & _ & Hd).
  - lia.
  - intros j Hj. unfold attemptFails, net.
    destruct (Nat.ltb_spec j 3); [|lia]. eexists. reflexivity.
  - reflexivity.
  - split; [exact Hres|exact Hd].
Defined.

(** X11: when all [maxRetries] calls fail, the error thrown is that of the
    last call, after exactly [maxRetries] calls and the delays 1000, ...,
    1000 (maxRetries-1); after the last failure nothing is waited for. *)
Theorem fetchWithRetry_exhausted net url (maxRetries : nat) (e : error) :
  (1 <= maxRetries)%nat ->
  (forall j, (1 <= j <= maxRetries)%nat -> attemptFails net j) ->
  attemptOnce (net maxRetries) = Err e ->
  snd (fetchWithRetry net url maxRetries) = Err e
  /\ fetches (fst (fetchWithRetry net url maxRetries)) = replicate maxRetries url
  /\ delays (fst (fetchWithRetry net url maxRetries))
     = map (fun i => 1000 * i) (seqZ 1 (Z.of_nat maxRetries - 1)).
Proof.
  intros Hmax Hfail Hlast. unfold fetchWithRetry.
  apply (retryLoop_exhausted net url maxRetries maxRetries 1 e); try done; lia.
Qed.

Lemma fetchWithRetry_exhausted_witness :
  let net := fun j => Response false (500 + Z.of_nat j) (Ok []) in
  snd (fetchWithRetry net (lit "u") 3) = Err (Error (lit "HTTP 503"))
  /\ delays (fst (fetchWithRetry net (lit "u") 3)) = [1000; 2000].
Proof.
  intros net.
  destruct (fetchWithRetry_exhausted net (lit "u") 3 (Error (lit "HTTP 503"))) as (Hres & _ & Hd).
  - lia.
  - intros j Hj. eexists. reflexivity.
  - reflexivity.
  - split; [exact Hres|exact Hd].
Defined.

Lemma retryLoop_bounded net url maxRetries (remaining : nat) :
  forall attempt,
    (attempt + remaining = maxRetries + 1)%nat ->
    (length (fetches (fst (retryLoop net url maxRetries remaining attempt))) <= remaining)%nat
    /\ (1 <= remaining ->
        snd (retryLoop net url maxRetries remaining attempt) <> Ok None
        /\ length (fetches (fst (retryLoop net url maxRetries remaining attempt)))
           = S (length (delays (fst (retryLoop net url maxRetries remaining attempt)))))%nat
    /\ logged (fst (retryLoop net url maxRetries remaining attempt)) = []
    /\ loggedErrors (fst (retryLoop net url maxRetries remaining attempt)) = []
    /\ Forall (fun u => u = url) (fetches (fst (retryLoop net url maxRetries remaining attempt))).
Proof.
  induction remaining as [|remaining IH]; intros attempt Hsum; simpl.
  - repeat split; try done; lia.
  - destruct (attemptOnce (net attempt)) as [text|e]; simpl.
    + repeat split; try done; try lia. by repeat constructor.
    + destruct (Nat.eqb_spec attempt maxRetries) as [->|Hne]; simpl.
      * repeat split; try done; try lia. by repeat constructor.
      * destruct (IH (S attempt)) as (Hle & Hpos & Hlog & Herr & Hall); [lia|].
        destruct Hpos as [Hdef Hcount]; [lia|].
        repeat split; try done; try lia. by constructor.
Qed.

(** X12: whatever the network does, [fetch] is called at most [maxRetries]
    times, always with the same address, one more time than is waited; with
    at least one retry allowed the result is never [undefined]; with none,
    nothing is fetched and the result is [undefined]. *)
Theorem fetchWithRetry_bounded net url (maxRetries : nat) :
  (length (fetches (fst (fetchWithRetry net url maxRetries))) <= maxRetries)%nat
  /\ Forall (fun u => u = url) (fetches (fst (fetchWithRetry net url maxRetries)))
  /\ (1 <= maxRetries ->
      snd (fetchWithRetry net url maxRetries) <> Ok None
      /\ length (fetches (fst (fetchWithRetry net url maxRetries)))
         = S (length (delays (fst (fetchWithRetry net url maxRetries)))))%nat
  /\ (maxRetries = 0%nat -> fetchWithRetry net url maxRetries = ([], Ok None)).
Proof.
  unfold fetchWithRetry.
  destruct (retryLoop_bounded net url maxRetries maxRetries 1) as (Hle & Hpos & _ & _ & Hall);
    [lia|].
  split; [done|]. split; [done|]. split; [done|]. by intros ->.
Qed.

Lemma fetchWithRetry_bounded_witness :
  let net := fun j => Response false (500 + Z.of_nat j) (Ok []) in
  snd (fetchWithRetry net (lit "u") 3) <> Ok None
  /\ fetchWithRetry net (lit "u") 0 = ([], Ok None).
Proof.
  intros net.
  destruct (fetchWithRetry_bounded net (lit "u") 3) as (_ & _ & Hpos & _).
  destruct (fetchWithRetry_bounded net (lit "u") 0) as (_ & _ & _ & Hzero).
  split; [apply Hpos; lia|apply Hzero; reflexivity].
Defined.

End Retrying.

(** ** The plain-text decoder from the address on *)

Section DecodingFrom.

Import PlainText PlainTextFetch.

Implicit Types (net : jsstring -> nat -> fetched) (url : jsstring).

Lemma retryLoop_text (fetch : nat -> fetched) url maxRetries (remaining : nat) :
  forall attempt text,
    snd (retryLoop fetch url maxRetries remaining attempt) = Ok (Some text) ->
    exists n, (attempt <= n < attempt + remaining)%nat /\ attemptOnce (fetch n) = Ok text.
Proof.
  induction remaining as [|remaining IH]; intros attempt text; simpl; [done|].
  destruct (attemptOnce (fetch attempt)) as [text'|e] eqn:Hattempt; simpl.
  - intros [= <-]. exists attempt. split; [lia|done].
  - destruct (Nat.eqb_spec attempt maxRetries); simpl; [done|].
    intros Hrec. destruct (IH _ _ Hrec) as (call & Hcall & Hok).
    exists call. split; [lia|done].
Qed.

Lemma failed_effects {A} (effs : list effect) (e : error) :
  logged effs = [] -> loggedErrors effs = [] ->
  logged (fst (failed (A := A) effs e)) = []
  /\ loggedErrors (fst (failed (A := A) effs e)) = [lit "Decoding failed: " ++ message e]
  /\ fetches (fst (failed (A := A) effs e)) = fetches effs.
Proof.
  intros Hlog Herr. unfold failed, logged, loggedErrors, fetches in *. simpl.
  rewrite !omap_app, Hlog, Herr. simpl. by rewrite app_nil_r.
Qed.

(** X13: when the decoder fails, for whatever reason, nothing has been
    printed with [console.log], and exactly one line, "Decoding failed: "
    with the message of the error thrown, with [console.error]; an address
    that is rejected is never fetched. *)
Theorem decode_failure_reported net url (e : error) :
  snd (decodeSecretMessageFrom net url) = Err e ->
  logged (fst (decodeSecretMessageFrom net url)) = []
  /\ loggedErrors (fst (decodeSecretMessageFrom net url))
     = [lit "Decoding failed: " ++ message e]
  /\ (getPlainTextUrl url = Err e -> fetches (fst (decodeSecretMessageFrom net url)) = []).
Proof.
  unfold decodeSecretMessageFrom.
  destruct (getPlainTextUrl url) as [fetchUrl|e0] eqn:Hurl.
  - destruct (retryLoop_bounded (net fetchUrl) fetchUrl 3 3 1) as (_ & _ & Hlog & Herr & _);
      [lia|].
    fold (fetchWithRetry (net fetchUrl) fetchUrl 3) in Hlog, Herr.
    destruct (snd (fetchWithRetry (net fetchUrl) fetchUrl 3)) as [[content|]|e1].
    + destruct (decodeSecretMessage content) as [lines|e2]; [done|].
      simpl. intros [= ->].
      destruct (failed_effects (A := unit) _ e Hlog Herr) as (H1 & H2 & _). done.
    + simpl. intros [= <-].
      destruct (failed_effects (A := unit) _
                  (TypeError (lit "Cannot read properties of undefined (reading 'split')"))
                  Hlog Herr) as (H1 & H2 & _). done.
    + simpl. intros [= ->].
      destruct (failed_effects (A := unit) _ e Hlog Herr) as (H1 & H2 & _). done.
  - simpl. intros [= ->]. done.
Qed.

Lemma decode_failure_reported_witness :
  let net := fun (_ : jsstring) (_ : nat) => Response true 200 (Ok (lit "no records here")) in
  snd (decodeSecretMessageFrom net (lit "https://example.org/notes.txt")) = Err noData
  /\ loggedErrors (fst (decodeSecretMessageFrom net (lit "https://example.org/notes.txt")))
     = [lit "Decoding failed: No character data found"].
Proof.
  intros net.
  assert (snd (decodeSecretMessageFrom net (lit "https://example.org/notes.txt")) = Err noData)
    as Hfail by reflexivity.
  split; [exact Hfail|].
  exact (proj1 (proj2 (decode_failure_reported net _ noData Hfail))).
Defined.

(** X14: when the decoder succeeds, the address fetched is the one
    [getPlainTextUrl] gives, it was fetched between one and three times, the
    text decoded is that of a call that succeeded, and what is printed is
    what the decoding of that text prints, with nothing on the error
    console. *)
Theorem decode_success_composed net url :
  snd (decodeSecretMessageFrom net url) = Ok tt ->
  exists fetchUrl n content lines,
    getPlainTextUrl url = Ok fetchUrl
    /\ (1 <= n <= 3)%nat /\ attemptOnce (net fetchUrl n) = Ok content
    /\ Forall (fun u => u = fetchUrl) (fetches (fst (decodeSecretMessageFrom net url)))
    /\ (1 <= length (fetches (fst (decodeSecretMessageFrom net url))) <= 3)%nat
    /\ decodeSecretMessage content = Ok lines
    /\ logged (fst (decodeSecretMessageFrom net url)) = lines
    /\ loggedErrors (fst (decodeSecretMessageFrom net url)) = [].
Proof.
  unfold decodeSecretMessageFrom.
  destruct (getPlainTextUrl url) as [fetchUrl|e0] eqn:Hurl; [|done].
  destruct (retryLoop_bounded (net fetchUrl) fetchUrl 3 3 1)
    as (Hle & Hpos & Hlog & Herr & Hall); [lia|].
  destruct Hpos as [_ Hcount]; [lia|].
  pose proof (retryLoop_text (net fetchUrl) fetchUrl 3 3 1) as Htext.
  fold (fetchWithRetry (net fetchUrl) fetchUrl 3) in *.
  destruct (snd (fetchWithRetry (net fetchUrl) fetchUrl 3)) as [[content|]|e1]; try done.
  destruct (Htext content eq_refl) as (call & Hcall & Hok).
  destruct (decodeSecretMessage content) as [lines|e2] eqn:Hdec; [|done].
  intros _. exists fetchUrl, call, content, lines. simpl.
  assert (forall (effs : list effect) ls,
            fetches (effs ++ map Log ls) = fetches effs
            /\ logged (effs ++ map Log ls) = logged effs ++ ls
            /\ loggedErrors (effs ++ map Log ls) = loggedErrors effs) as Hlogs.
  { intros effs ls. unfold fetches, logged, loggedErrors. rewrite !omap_app.
    assert (omap (fun e => match e with Fetch u => Some u | _ => None end) (map Log ls) = []
            /\ omap (fun e => match e with Log l => Some l | _ => None end) (map Log ls) = ls
            /\ omap (fun e => match e with LogError l => Some l | _ => None end) (map Log ls)
               = []) as (-> & -> & ->).
    { induction ls as [|l ls (IH1 & IH2 & IH3)]; [done|]. simpl.
      split; [done|]. split; [|done]. f_equal. exact IH2. }
    by rewrite !app_nil_r. }
  destruct (Hlogs (fst (fetchWithRetry (net fetchUrl) fetchUrl 3)) lines) as (-> & -> & ->).
  rewrite Hlog, Herr. repeat split; try done; lia.
Qed.

Lemma decode_success_composed_witness :
  let net := fun (_ : jsstring) (j : nat) =>
               if (j <? 2)%nat then Rejected (TypeError (lit "fetch failed"))
               else Response true 200 (Ok (lit "A 0 0")) in
  snd (decodeSecretMessageFrom net (lit "https://docs.google.com/document/d/abc/edit")) = Ok tt
  /\ logged (fst (decodeSecretMessageFrom net (lit "https://docs.google.com/document/d/abc/edit")))
     = [lit "Secret Message:"; lit "A"].
Proof.
  intros net.
  assert (snd (decodeSecretMessageFrom net (lit "https://docs.google.com/document/d/abc/edit"))
          = Ok tt) as Hok by reflexivity.
  split; [exact Hok|].
  destruct (decode_success_composed net _ Hok) as (u & n & content & lines & _).
  reflexivity.
Defined.

End DecodingFrom.

(** ** The row-text decoder: what extraction gives *)

Section RowTextExtraction.

Import RowText.

Lemma forallb_isDigit (text : jsstring) :
  (forallb isDigit text = true -> Forall (fun c => isDigit c = true) text)
  /\ (forallb isDigit text = false -> exists c, In c text /\ isNonDigit c = true).
Proof.
  induction text as [|c text [IHt IHf]]; simpl; [split; [constructor|done]|].
  destruct (isDigit c) eqn:Hc; simpl.
  - split; [intros H; constructor; auto|].
    intros H. destruct (IHf H) as (d & Hd & Hnd). exists d. split; [by right|done].
  - split; [done|]. intros _. exists c. split; [by left|]. unfold isNonDigit. by rewrite Hc.
Qed.

(** X15: extraction gives records for the empty sequence of rows only.  The
    first row decides: a row with a code unit that is no digit throws the
    [TypeError] of [m.trim()], a row of digits only (the empty row
    included) the [DataError] that quotes it; the rows after it are not
    looked at. *)
Theorem extraction_fails_on_first_row (rows : list jsstring) :
  (forall r, extractDataFromRows rows = Ok r <-> rows = [] /\ r = ([], []))
  /\ (forall text rest, rows = text :: rest ->
        extractDataFromRows rows
        = if forallb isDigit text
          then Err (DataError (lit "Row missing at least two coordinates: " ++ quoted text))
          else Err trimError).
Proof.
  split.
  - intros [coords chars]. split.
    + intros Hok. destruct (extractDataFromRows_only_empty _ _ _ Hok) as (-> & -> & ->). done.
    + intros [-> [= -> ->]]. done.
  - intros text rest ->. unfold extractDataFromRows. simpl.
    destruct (forallb_isDigit text) as [Ht Hf].
    destruct (forallb isDigit text).
    + by rewrite extractRow_digits by auto.
    + destruct Hf as (c & Hin & Hc); [done|]. by rewrite (extractRow_nonDigit text c).
Qed.

Lemma extraction_fails_on_first_row_witness :
  extractDataFromRows [lit "42"; lit "X 0 0"]
  = Err (DataError (lit "Row missing at least two coordinates: " ++ quoted (lit "42")))
  /\ extractDataFromRows [lit "X 0 0"; lit "42"] = Err trimError.
Proof.
  destruct (extraction_fails_on_first_row [lit "42"; lit "X 0 0"]) as [_ H1].
  destruct (extraction_fails_on_first_row [lit "X 0 0"; lit "42"]) as [_ H2].
  split; [exact (H1 _ _ eq_refl)|exact (H2 _ _ eq_refl)].
Defined.

(** X16: from the [tr] elements on, rendering prints (one empty line) only
    for a table of at most one row, the heading, whose text is never looked
    at; with any row after the heading it throws. *)
Theorem render_table_succeeds_iff (trs : list jsstring) (out : list jsstring) :
  renderFromUrl (getTableRows trs) = Ok out <-> (length trs <= 1)%nat /\ out = [ [] ].
Proof.
  unfold renderFromUrl, getTableRows. split.
  - destruct (extractDataFromRows (drop 1 trs)) as [[coords chars]|e] eqn:Hext; [|done].
    apply extractDataFromRows_only_empty in Hext as (Hrows & -> & ->).
    simpl. intros [= <-]. split; [|done].
    destruct trs as [|header [|row rows]]; simpl in *; try done; lia.
  - intros [Hlen ->]. destruct trs as [|header [|row rows]]; simpl in *; try done; lia.
Qed.

Lemma render_table_succeeds_iff_witness :
  renderFromUrl (getTableRows [lit "x-coordinate Character y-coordinate"]) = Ok [ [] ].
Proof.
  apply render_table_succeeds_iff. split; [simpl; lia|reflexivity].
Defined.

End RowTextExtraction.

(** ** The row-text decoder: the rendering as a whole *)

Section RowTextOutput.

Import RowText.

Implicit Types (coords : list (Z * Z)) (chars : list charValue).

Lemma Math_max_nonneg (vs : list Z) (m : Z) :
  Math_max vs = Some m -> (0 <= m <-> Exists (fun v => 0 <= v) vs).
Proof.
  intros Hm. destruct (Math_max_greatest _ _ Hm) as [Hin Hall]. split.
  - intros H0. apply Exists_exists. exists m. split; [by apply list_elem_of_In|done].
  - intros Hex. apply Exists_exists in Hex as (v & Hv & H0).
    apply list_elem_of_In in Hv.
    pose proof (proj1 (List.Forall_forall _ _) Hall v Hv). simpl in *. lia.
Qed.

Lemma gridSize_ok_iff coords :
  (exists w h, gridSize coords = Ok (w, h))
  <-> Exists (fun xy => 0 <= fst xy) coords /\ Exists (fun xy => 0 <= snd xy) coords.
Proof.
  assert (forall (f : Z * Z -> Z), Exists (fun v => 0 <= v) (map f coords)
                                   <-> Exists (fun xy => 0 <= f xy) coords) as Hmap.
  { intros f. induction coords as [|xy coords IH]; simpl.
    - split; inversion 1.
    - rewrite !Exists_cons, IH. done. }
  split.
  - intros (w & h & Hsize).
    apply gridSize_inv in Hsize as (mx & my & Hmx & Hmy & -> & -> & Hw & Hh).
    split; apply Hmap.
    + apply (Math_max_nonneg _ _ Hmx). lia.
    + apply (Math_max_nonneg _ _ Hmy). lia.
  - intros [Hx Hy]. apply Hmap in Hx, Hy.
    destruct (Math_max_is_Some (map fst coords)) as [mx Hmx]; [by destruct Hx|].
    destruct (Math_max_is_Some (map snd coords)) as [my Hmy]; [by destruct Hy|].
    exists (mx + 1), (my + 1). apply gridSize_ok; try done.
    + by apply (Math_max_nonneg _ _ Hmx).
    + by apply (Math_max_nonneg _ _ Hmy).
Qed.

(** X17: rendering succeeds exactly when there are as many characters as
    coordinates and either no record at all, or a record with x >= 0 and a
    record with y >= 0; with different lengths it throws the mismatch
    error, otherwise the invalid-size error. *)
Theorem render_succeeds_iff coords chars :
  ((exists out, buildAndRenderGrid coords chars = Ok out)
   <-> length coords = length chars
       /\ (coords = []
           \/ (Exists (fun xy => 0 <= fst xy) coords /\ Exists (fun xy => 0 <= snd xy) coords)))
  /\ (length coords <> length chars ->
      buildAndRenderGrid coords chars
      = Err (DataError (lit "Coordinates and characters length mismatch")))
  /\ (length coords = length chars ->
      forall e, buildAndRenderGrid coords chars = Err e ->
      exists size, e = DataError (lit "Invalid grid size computed: " ++ size)).
Proof.
  unfold buildAndRenderGrid.
  destruct (Nat.eqb_spec (length coords) (length chars)) as [Hlen|Hlen]; simpl.
  - split; [|split; [done|]].
    + destruct coords as [|xy coords']; simpl.
      { split; [intros _; split; [done|by left]|intros _; by eexists]. }
      set (cs := xy :: coords') in *. unfold buildGrid. split.
      * intros [out Hout]. split; [done|]. right. apply gridSize_ok_iff.
        destruct (gridSize cs) as [[w h]|e]; [by exists w, h|done].
      * intros [_ [Hnil|Hex]]; [done|].
        apply gridSize_ok_iff in Hex as (w & h & ->). simpl. by eexists.
    + intros _ e. destruct coords as [|xy coords']; simpl; [done|].
      unfold buildGrid, gridSize.
      destruct (Math_max _) as [mx|], (Math_max _) as [my|]; simpl;
        try (intros [= <-]; by eexists).
      destruct ((mx + 1 <=? 0) || (my + 1 <=? 0)); simpl; [|done].
      intros [= <-]. by eexists.
  - split; [|split; [done|by intros]].
    split; [by intros [? ?]|by intros [? _]].
Qed.

Lemma render_succeeds_iff_witness :
  buildAndRenderGrid [(-1, 0)] [Str (lit "A")]
  = Err (DataError (lit "Invalid grid size computed: 0x1"))
  /\ buildAndRenderGrid [(0, 0)] []
     = Err (DataError (lit "Coordinates and characters length mismatch")).
Proof.
  destruct (render_succeeds_iff [(0, 0)] []) as (_ & Hmis & _).
  split; [reflexivity|]. apply Hmis. discriminate.
Defined.

(** X18: once the size check has passed, every record is below the width
    and the height: the two upper tests of the guard never fire, and the
    turns that take the [continue] are those of the records with a
    negative coordinate. *)
Theorem only_negative_skipped coords chars (w h : Z) :
  length coords = length chars -> gridSize coords = Ok (w, h) ->
  Forall (fun xy => fst xy < w /\ snd xy < h) coords
  /\ skipped (blankGrid h w) coords chars
     = filter (fun xy => fst xy < 0 \/ snd xy < 0) coords.
Proof.
  intros Hlen Hsize.
  destruct (gridSize_inv _ _ _ Hsize) as (mx & my & Hmx & Hmy & -> & -> & Hw & Hh).
  destruct (Math_max_greatest _ _ Hmx) as [_ Hallx].
  destruct (Math_max_greatest _ _ Hmy) as [_ Hally].
  assert (Forall (fun xy => fst xy < mx + 1 /\ snd xy < my + 1) coords) as Hbelow.
  { apply List.Forall_forall. intros xy Hin.
    pose proof (proj1 (List.Forall_forall _ _) Hallx (fst xy) (List.in_map fst _ _ Hin)).
    pose proof (proj1 (List.Forall_forall _ _) Hally (snd xy) (List.in_map snd _ _ Hin)).
    simpl in *. lia. }
  split; [done|].
  rewrite (skipped_rect (my + 1) (mx + 1)) by (done || apply rect_blank; lia).
  clear -Hbelow. induction Hbelow as [|xy coords [Hx Hy] _ IH]; [done|].
  rewrite !filter_cons, IH.
  destruct (decide (inside (mx + 1) (my + 1) xy = false)) as [Hout|Hin],
           (decide (fst xy < 0 \/ snd xy < 0)) as [Hneg|Hpos]; try done.
  - exfalso. assert (inside (mx + 1) (my + 1) xy = true) as Hin; [|congruence].
    unfold inside. rewrite !andb_true_iff, !Z.leb_le, !Z.ltb_lt. lia.
  - exfalso. destruct (inside (mx + 1) (my + 1) xy) eqn:Hins; [|done].
    unfold inside in Hins. rewrite !andb_true_iff, !Z.leb_le, !Z.ltb_lt in Hins. lia.
Qed.

Lemma only_negative_skipped_witness :
  skipped (blankGrid 2 2) exampleCoords exampleChars = [(-1, 0)].
Proof.
  destruct (only_negative_skipped exampleCoords exampleChars 2 2) as [_ Hskip].
  - reflexivity.
  - reflexivity.
  - exact Hskip.
Defined.

Lemma row_text_output_holds coords chars (w h : Z) :
  length coords = length chars -> gridSize coords = Ok (w, h) ->
  buildGrid coords chars = Ok (tabulate h w (fun r c => shownAtRow coords chars c r))
  /\ buildAndRenderGrid coords chars
     = Ok (map (fun r => join [] (map (fun c => shownAtRow coords chars c r) (seqZ 0 w)))
             (reverse (seqZ 0 h))).
Proof.
  intros Hlen Hsize.
  destruct (gridSize_inv _ _ _ Hsize) as (_ & _ & _ & _ & _ & _ & Hw & Hh).
  pose proof (rect_blank h w) as Hblank.
  assert (placeAll (blankGrid h w) coords chars
          = tabulate h w (fun r c => shownAtRow coords chars c r)) as Hgrid.
  { apply grid_tabulate; [apply placeAll_rect; [done|apply Hblank; lia]|lia|].
    intros r c Hr Hc.
    rewrite (placeAll_cell h w) by (done || lia || apply Hblank; lia).
    unfold shownAtRow. destruct (lastCharAt c r coords chars); [done|].
    apply cellAt_blank; lia. }
  pose proof (buildGrid_ok coords chars _ _ Hsize) as Hbuild. rewrite Hgrid in Hbuild.
  split; [done|].
  rewrite (buildAndRenderGrid_ok _ _ _ Hlen (gridSize_nonempty _ _ _ Hsize) Hbuild).
  rewrite printRows_reverse. unfold tabulate.
  change (map ?f ?l) with (f <$> l). by rewrite <- !fmap_reverse, <- list_fmap_compose.
Qed.

(** X19: the rendering of a record set that passes the size check, line by
    line: the lines are those of the rows y = h-1 down to y = 0, and the line
    of row y puts together, for x = 0 to w-1, what the last record at (x, y)
    stores, or a space where there is none. *)
Theorem row_text_output coords chars (w h : Z) :
  length coords = length chars -> gridSize coords = Ok (w, h) ->
  buildGrid coords chars = Ok (tabulate h w (fun r c => shownAtRow coords chars c r))
  /\ buildAndRenderGrid coords chars
     = Ok (map (fun r => join [] (map (fun c => shownAtRow coords chars c r) (seqZ 0 w)))
             (reverse (seqZ 0 h))).
Proof. apply row_text_output_holds. Qed.

Lemma row_text_output_witness :
  buildAndRenderGrid exampleCoords exampleChars = Ok [lit " a,b"; lit "X "].
Proof.
  destruct (row_text_output exampleCoords exampleChars 2 2) as [_ Hout].
  - reflexivity.
  - reflexivity.
  - exact Hout.
Defined.

Lemma lastCharAt_In px py coords chars ch :
  lastCharAt px py coords chars = Some ch -> In ch chars.
Proof.
  revert chars. induction coords as [|xy coords IH]; intros [|ch' chars]; simpl; try done.
  destruct (lastCharAt px py coords chars) as [ch''|] eqn:Hlast.
  - intros [= ->]. right. by eapply IH.
  - destruct ((fst xy =? px) && (snd xy =? py)); [|done]. intros [= ->]. by left.
Qed.

Lemma printable_nonempty (ch : charValue) : (1 <= length (printable ch))%nat.
Proof.
  unfold printable. destruct (Nat.ltb_spec 0 (length (String_ ch))); [lia|].
  simpl. lia.
Qed.

Lemma length_join_cells (cells : list jsstring) :
  Forall (fun cell => (1 <= length cell)%nat) cells ->
  (length cells <= length (join [] cells))%nat.
Proof.
  induction 1 as [|cell cells Hcell Hcells IH]; [done|].
  destruct cells as [|cell' cells'].
  - simpl. lia.
  - change (join [] (cell :: cell' :: cells')) with (cell ++ [] ++ join [] (cell' :: cells')).
    rewrite !length_app. simpl in *. lia.
Qed.

(** X20: no cell is ever empty, so every printed line has at least as many
    code units as the grid is wide, one line per row; and when what every
    character stores is one code unit, every line has exactly the width: the
    output is a rectangle. *)
Theorem row_text_line_widths coords chars (w h : Z) :
  length coords = length chars -> gridSize coords = Ok (w, h) ->
  exists out,
    buildAndRenderGrid coords chars = Ok out
    /\ Z.of_nat (length out) = h
    /\ Forall (fun line => w <= Z.of_nat (length line)) out
    /\ (Forall (fun ch => length (printable ch) = 1%nat) chars ->
        Forall (fun line => Z.of_nat (length line) = w) out).
Proof.
  intros Hlen Hsize.
  destruct (gridSize_inv _ _ _ Hsize) as (_ & _ & _ & _ & _ & _ & Hw & Hh).
  destruct (row_text_output_holds coords chars w h Hlen Hsize) as [_ Hout].
  eexists. split; [exact Hout|].
  split; [rewrite length_map, length_reverse, length_seqZ; lia|]. split.
  - apply List.Forall_forall. intros line Hline.
    apply List.in_map_iff in Hline as (r & <- & _).
    etransitivity; [|apply inj_le, length_join_cells].
    + rewrite length_map, length_seqZ. lia.
    + apply List.Forall_forall. intros cell Hcell.
      apply List.in_map_iff in Hcell as (c & <- & _). unfold shownAtRow.
      destruct (lastCharAt c r coords chars); [apply printable_nonempty|simpl; lia].
  - intros Hunits. apply List.Forall_forall. intros line Hline.
    apply List.in_map_iff in Hline as (r & <- & _).
    rewrite length_join_units.
    + rewrite length_map, length_seqZ. lia.
    + apply List.Forall_forall. intros cell Hcell.
      apply List.in_map_iff in Hcell as (c & <- & _). unfold shownAtRow.
      destruct (lastCharAt c r coords chars) as [ch|] eqn:Hlast; [|done].
      apply lastCharAt_In in Hlast.
      exact (proj1 (List.Forall_forall _ _) Hunits ch Hlast).
Qed.

Lemma row_text_line_widths_witness :
  exists out,
    buildAndRenderGrid exampleCoords exampleChars = Ok out
    /\ Forall (fun line => 2 <= Z.of_nat (length line)) out.
Proof.
  destruct (row_text_line_widths exampleCoords exampleChars 2 2)
    as (out & Hout & _ & Hwide & _).
  - reflexivity.
  - reflexivity.
  - exists out. split; [exact Hout|exact Hwide].
Defined.

Lemma lastCharAt_records px py (cs : list PlainText.character) :
  lastCharAt px py (coordsOf cs) (charsOf cs)
  = (fun c => Str (PlainText.char c)) <$> lastCharacterAt px py cs.
Proof.
  induction cs as [|c cs IH]; [done|]. simpl. rewrite IH.
  destruct (lastCharacterAt px py cs); simpl; [done|].
  by destruct ((PlainText.x c =? px) && (PlainText.y c =? py)).
Qed.

(** X21: the two decoders draw the same picture, one upside down.  For
    records whose characters are not empty and whose smallest x and
    smallest y are 0, the row-text rendering of the records prints the lines
    of the plain-text grid in the opposite order. *)
Theorem dialects_mirror (cs : list PlainText.character) (b : PlainText.Bounds) (g : grid) :
  PlainText.computeBounds cs = Some b ->
  PlainText.minX b = 0 -> PlainText.minY b = 0 ->
  Forall (fun c => PlainText.char c <> []) cs ->
  PlainText.rasterize cs = Ok g ->
  buildGrid (coordsOf cs) (charsOf cs) = Ok g
  /\ buildAndRenderGrid (coordsOf cs) (charsOf cs) = Ok (reverse (map (join []) g)).
Proof.
  intros Hb Hx Hy Hchars Hg.
  assert (cs <> []) as Hne by (intros ->; done).
  destruct (plain_grid_contents_holds cs Hne) as (b' & Hb' & Hplain).
  assert (b' = b) as -> by congruence.
  destruct (computeBounds_extremes cs Hne)
    as (b' & Hb'' & Hall & [_ Hminx] & [Hinx Hmaxx] & [_ Hminy] & [Hiny Hmaxy]).
  assert (b' = b) as -> by congruence.
  assert (exists mx my, Math_max (map fst (coordsOf cs)) = Some mx
                        /\ Math_max (map snd (coordsOf cs)) = Some my) as (mx & my & Hmx & Hmy).
  { destruct (Math_max_is_Some (map fst (coordsOf cs))) as [mx Hmx]; [by destruct cs|].
    destruct (Math_max_is_Some (map snd (coordsOf cs))) as [my Hmy]; [by destruct cs|].
    eauto. }
  assert (map fst (coordsOf cs) = map PlainText.x cs) as Hfst
    by (unfold coordsOf; rewrite map_map; done).
  assert (map snd (coordsOf cs) = map PlainText.y cs) as Hsnd
    by (unfold coordsOf; rewrite map_map; done).
  assert (mx = PlainText.maxX b /\ my = PlainText.maxY b) as [-> ->].
  { destruct (Math_max_greatest _ _ Hmx) as [Hin1 Hall1].
    destruct (Math_max_greatest _ _ Hmy) as [Hin2 Hall2].
    rewrite Hfst in Hin1, Hall1. rewrite Hsnd in Hin2, Hall2.
    pose proof (proj1 (List.Forall_forall _ _) Hmaxx _ Hin1).
    pose proof (proj1 (List.Forall_forall _ _) Hall1 _ Hinx).
    pose proof (proj1 (List.Forall_forall _ _) Hmaxy _ Hin2).
    pose proof (proj1 (List.Forall_forall _ _) Hall2 _ Hiny).
    simpl in *. lia. }
  assert (0 <= PlainText.maxX b /\ 0 <= PlainText.maxY b) as [H0x H0y].
  { destruct cs as [|c cs']; [done|]. inversion Hall as [|? ? Hc _]; subst.
    unfold within in Hc. lia. }
  pose proof (gridSize_ok _ _ _ Hmx Hmy H0x H0y) as Hsize.
  assert (length (coordsOf cs) = length (charsOf cs)) as Hlen
    by (unfold coordsOf, charsOf; by rewrite !length_map).
  destruct (row_text_output_holds _ _ _ _ Hlen Hsize) as [Hbuild Hout].
  assert (tabulate (PlainText.maxY b + 1) (PlainText.maxX b + 1)
            (fun r c => shownAtRow (coordsOf cs) (charsOf cs) c r) = g) as Hsame.
  { rewrite Hplain in Hg. injection Hg as <-. rewrite Hx, Hy, !Z.sub_0_r.
    unfold tabulate. apply map_ext. intros r. apply map_ext. intros c.
    unfold shownAtRow, shownAt. rewrite lastCharAt_records, !Z.add_0_l.
    destruct (lastCharacterAt c r cs) as [rec|] eqn:Hlast; simpl; [|done].
    apply printable_whole. simpl.
    apply lastCharacterAt_In in Hlast.
    exact (proj1 (List.Forall_forall _ _) Hchars rec Hlast). }
  rewrite Hsame in Hbuild. split; [done|].
  rewrite (buildAndRenderGrid_ok _ _ _ Hlen (gridSize_nonempty _ _ _ Hsize) Hbuild).
  rewrite printRows_reverse. change (map ?f ?l) with (f <$> l). by rewrite fmap_reverse.
Qed.

Lemma dialects_mirror_witness :
  let cs := [ {| PlainText.char := lit "A"; PlainText.x := 0; PlainText.y := 1 |};
              {| PlainText.char := lit "B"; PlainText.x := 2; PlainText.y := 0 |} ] in
  PlainText.rasterize cs = Ok [ [space; space; lit "B"]; [lit "A"; space; space] ]
  /\ buildAndRenderGrid (coordsOf cs) (charsOf cs) = Ok [lit "A  "; lit "  B"].
Proof.
  intros cs.
  assert (PlainText.rasterize cs = Ok [ [space; space; lit "B"]; [lit "A"; space; space] ])
    as Hg by reflexivity.
  split; [exact Hg|].
  assert (Forall (fun c => PlainText.char c <> []) cs) as Hchars
    by (repeat constructor; discriminate).
  exact (proj2 (dialects_mirror cs
                  {| PlainText.minX := 0; PlainText.maxX := 2;
                     PlainText.minY := 0; PlainText.maxY := 1 |}
                  _ eq_refl eq_refl eq_refl Hchars Hg)).
Defined.

End RowTextOutput.
